(** * Slot machine: payline evaluation, spin generation, round and session

    A shallow embedding of [slot_machine.py].  Python integers are [Z],
    lists are [list], the multiplier dictionary is a [gmap], the weight
    dictionary (which the program iterates in insertion order) is an
    association list, and a Python exception is a [Raise] result.
    Console output is write-only and does not influence any value the
    program computes, so [print] calls are not modelled. *)

From stdpp Require Import base option list numbers sorting gmap strings.
From Stdlib Require Import ZArith Lia.

Local Open Scope Z_scope.

(** ** Exceptions and results *)

Inductive Exn : Set :=
  | IndexError
  | KeyError
  | ValueError
  | EOFError.

Inductive Res (A : Type) : Type :=
  | Ok (a : A)
  | Raise (e : Exn).
Arguments Ok {A} a.
Arguments Raise {A} e.

#[global] Instance Res_ret : MRet Res := λ A a, Ok a.
#[global] Instance Res_bind : MBind Res := λ A B f m,
  match m with
  | Ok a => f a
  | Raise e => Raise e
  end.

Definition is_Ok {A} (r : Res A) : Prop := ∃ a, r = Ok a.
Definition is_Raise {A} (r : Res A) : Prop := ∃ e, r = Raise e.

(** [for x in xs: s = body(s, x)], stopping at the first exception. *)
Fixpoint for_each {A S : Type} (body : S → A → Res S) (xs : list A) (s : S) : Res S :=
  match xs with
  | [] => Ok s
  | x :: xs' => s' ← body s x; for_each body xs' s'
  end.

(** [range(n)]: empty when [n <= 0]. *)
Definition range (n : Z) : list Z := seqZ 0 n.

(** [l[i]] on a Python list: a negative index counts from the end, an
    index outside the list raises [IndexError]. *)
Definition list_getitem {A : Type} (l : list A) (i : Z) : Res A :=
  let j := if i <? 0 then i + Z.of_nat (length l) else i in
  if j <? 0 then Raise IndexError
  else match l !! Z.to_nat j with
       | Some x => Ok x
       | None => Raise IndexError
       end.

(** [d[k]] on a Python dict: a missing key raises [KeyError]. *)
Definition dict_getitem `{Countable K} {V : Type} (d : gmap K V) (k : K) : Res V :=
  match d !! k with
  | Some v => Ok v
  | None => Raise KeyError
  end.

(** ** PayoutEvaluator: [check_winnings] *)

Section PayoutEvaluator.
Context `{Countable Symbol}.

(** The inner [for column in columns: ... break ... else: ...] loop:
    [Ok true] when the loop runs to its end (the [else] branch is taken),
    [Ok false] when it leaves through [break]; columns after the first
    mismatch are not read. *)
Fixpoint columns_match (symbol : Symbol) (line : Z)
    (columns : list (list Symbol)) : Res bool :=
  match columns with
  | [] => Ok true
  | column :: rest =>
      symbol_to_check ← list_getitem column line;
      if decide (symbol ≠ symbol_to_check) then Ok false
      else columns_match symbol line rest
  end.

(** One iteration of [for line in range(lines)], on the pair
    [(winnings, winning_lines)]. *)
Definition check_line (columns : list (list Symbol)) (bet : Z)
    (values : gmap Symbol Z) (acc : Z * list Z) (line : Z) : Res (Z * list Z) :=
  let '(winnings, winning_lines) := acc in
  column0 ← list_getitem columns 0;
  symbol ← list_getitem column0 line;
  matched ← columns_match symbol line columns;
  if matched : bool then
    value ← dict_getitem values symbol;
    Ok (winnings + value * bet, winning_lines ++ [line + 1])
  else Ok (winnings, winning_lines).

Definition check_winnings (columns : list (list Symbol)) (lines bet : Z)
    (values : gmap Symbol Z) : Res (Z * list Z) :=
  for_each (check_line columns bet values) (range lines) (0, []).

(** *** The evaluation rule in the words of the specification *)

(** Every column holds the identical symbol at row [i]. *)
Definition row_agrees (columns : list (list Symbol)) (i : Z) : Prop :=
  ∀ c1 c2, c1 ∈ columns → c2 ∈ columns →
    c1 !! Z.to_nat i = c2 !! Z.to_nat i.

Definition row_wins (columns : list (list Symbol)) (i : Z) : bool :=
  forallb (λ c, bool_decide (c !! Z.to_nat i = hd [] columns !! Z.to_nat i)) columns.

(** [multipliers[grid[0][i]]]; only used where both lookups succeed. *)
Definition row_multiplier (columns : list (list Symbol))
    (values : gmap Symbol Z) (i : Z) : Z :=
  default 0 (hd [] columns !! Z.to_nat i ≫= λ s, values !! s).

Definition winning_rows (columns : list (list Symbol)) (lines : Z) : list Z :=
  List.filter (row_wins columns) (range lines).

Definition sumZ (l : list Z) : Z := foldr Z.add 0 l.

Definition spec_winnings (columns : list (list Symbol)) (lines bet : Z)
    (values : gmap Symbol Z) : Z :=
  sumZ ((λ i, row_multiplier columns values i * bet) <$> winning_rows columns lines).

Definition spec_winning_lines (columns : list (list Symbol)) (lines : Z) : list Z :=
  (λ i, i + 1) <$> winning_rows columns lines.

(** At row [line] the inner loop reaches a column that has no such row:
    some column lacks the row, and every column before it holds there the
    symbol of the first column. *)
Definition reads_missing_row (columns : list (list Symbol)) (line : Z) : Prop :=
  ∃ (j : nat) (c : list Symbol),
    columns !! j = Some c ∧ c !! Z.to_nat line = None
    ∧ ∀ (k : nat) (c' : list Symbol), (k < j)%nat → columns !! k = Some c' →
        c' !! Z.to_nat line = hd [] columns !! Z.to_nat line.

(** Every column has a row [line]. *)
Definition has_row (line : Z) (columns : list (list Symbol)) : Prop :=
  Forall (λ c : list Symbol, is_Some (c !! Z.to_nat line)) columns.

End PayoutEvaluator.

(** ** SymbolPool and SpinGenerator: [get_slot_machine_spin] *)

(** [l.remove(x)]: drops the first element equal to [x]; raises
    [ValueError] when there is none. *)
Fixpoint list_remove_value `{EqDecision A} (x : A) (l : list A) : Res (list A) :=
  match l with
  | [] => Raise ValueError
  | y :: l' =>
      if decide (y = x) then Ok l'
      else l'' ← list_remove_value x l'; Ok (y :: l'')
  end.

(** Number of occurrences of [x] in [l]. *)
Definition count `{EqDecision A} (x : A) (l : list A) : nat :=
  length (filter (λ y, y = x) l).

Section SpinGenerator.
Context {Symbol : Type} `{EqDecision Symbol}.

(** The random source: [randbelow n g] is the generator's next integer
    for bound [n], and the generator's next state. *)
Context {Rng : Type} (randbelow : nat → Rng → nat * Rng).

(** [random.choice(seq)]: [IndexError] on an empty sequence, otherwise
    [seq[randbelow(len(seq))]]. *)
Definition random_choice {A : Type} (seq : list A) (g : Rng) : Res (A * Rng) :=
  if decide (length seq = 0%nat) then Raise IndexError
  else
    let '(i, g') := randbelow (length seq) g in
    x ← list_getitem seq (Z.of_nat i); Ok (x, g').

(** The pool: [for symbol, symbol_count in symbols.items()] appends
    [symbol] once per element of [range(symbol_count)], which is empty
    for a count of zero or less. *)
Definition build_pool (symbols : list (Symbol * Z)) : list Symbol :=
  foldl (λ all_symbols '(symbol, symbol_count),
           foldl (λ acc _, acc ++ [symbol]) all_symbols (range symbol_count))
        [] symbols.

(** The pool in closed form: each symbol, as many times as its weight
    when that is positive. *)
Definition pool_of (symbols : list (Symbol * Z)) : list Symbol :=
  concat ((λ sw, replicate (Z.to_nat sw.2) sw.1) <$> symbols).

(** One iteration of [for _ in range(rows)], on
    [(column, current_symbols)] and the generator. *)
Definition draw_symbol (st : list Symbol * list Symbol * Rng) (_ : Z) :
    Res (list Symbol * list Symbol * Rng) :=
  let '(column, current_symbols, g) := st in
  '(value, g') ← random_choice current_symbols g;
  current_symbols' ← list_remove_value value current_symbols;
  Ok (column ++ [value], current_symbols', g').

(** One iteration of [for _ in range(cols)], on [columns] and the
    generator; [current_symbols = all_symbols[:]] starts every column from
    the whole pool. *)
Definition draw_column (rows : Z) (all_symbols : list Symbol)
    (st : list (list Symbol) * Rng) (_ : Z) : Res (list (list Symbol) * Rng) :=
  let '(columns, g) := st in
  '(column, _, g') ← for_each draw_symbol (range rows) ([], all_symbols, g);
  Ok (columns ++ [column], g').

Definition get_slot_machine_spin (rows cols : Z) (symbols : list (Symbol * Z))
    (g : Rng) : Res (list (list Symbol) * Rng) :=
  let all_symbols := build_pool symbols in
  for_each (draw_column rows all_symbols) (range cols) ([], g).

End SpinGenerator.

(** A symbol table as the data model has it: distinct symbols, positive
    weights. *)
Definition table_wf {Symbol : Type} (symbols : list (Symbol * Z)) : Prop :=
  NoDup (symbols.*1) ∧ Forall (λ sw, 0 < sw.2) symbols.

(** ** Configuration *)

Definition MAX_LINES : Z := 3.
Definition MAX_BET : Z := 100.
Definition MIN_BET : Z := 1.
Definition ROWS : Z := 3.
Definition COLS : Z := 3.

Definition symbol_count : list (string * Z) :=
  [("A", 2); ("B", 4); ("C", 6); ("D", 8)].

Definition symbol_values : gmap string Z :=
  list_to_map [("A", 5); ("B", 4); ("C", 3); ("D", 2)].

(** ** Console input

    The console is the list of the lines still to be typed; each line is a
    string of characters with code points below 256. *)

(** [input(prompt)]: the next line, [EOFError] when there is none. *)
Definition input (stdin : list string) : Res (string * list string) :=
  match stdin with
  | [] => Raise EOFError
  | line :: rest => Ok (line, rest)
  end.

Definition is_decimal (c : Ascii.ascii) : bool :=
  let n := Ascii.N_of_ascii c in ((48 <=? n) && (n <=? 57))%N.

(** Superscript two, three and one: digits for [str.isdigit], not
    accepted by [int]. *)
Definition is_superscript_digit (c : Ascii.ascii) : bool :=
  let n := Ascii.N_of_ascii c in ((n =? 178) || (n =? 179) || (n =? 185))%N.

(** [s.isdigit()]: at least one character, and all of them digits. *)
Definition isdigit (s : string) : bool :=
  match String.list_ascii_of_string s with
  | [] => false
  | cs => forallb (λ c, is_decimal c || is_superscript_digit c) cs
  end.

Definition digit_value (c : Ascii.ascii) : Z := Z.of_N (Ascii.N_of_ascii c) - 48.

(** [int(s)] on a string that passed [isdigit]: its decimal value, or
    [ValueError] when it holds a digit that is not a decimal digit.  The
    interpreter's limit on the length of the literal is not modelled. *)
Definition int (s : string) : Res Z :=
  let cs := String.list_ascii_of_string s in
  if forallb is_decimal cs
  then Ok (foldl (λ acc c, acc * 10 + digit_value c) 0 cs)
  else Raise ValueError.

Fixpoint deposit (stdin : list string) : Res (Z * list string) :=
  match stdin with
  | [] => Raise EOFError
  | amount :: rest =>
      if isdigit amount then
        match int amount with
        | Ok amount => if 0 <? amount then Ok (amount, rest) else deposit rest
        | Raise e => Raise e
        end
      else deposit rest
  end.

Fixpoint get_number_of_lines (stdin : list string) : Res (Z * list string) :=
  match stdin with
  | [] => Raise EOFError
  | lines :: rest =>
      if isdigit lines then
        match int lines with
        | Ok lines =>
            if (1 <=? lines) && (lines <=? MAX_LINES) then Ok (lines, rest)
            else get_number_of_lines rest
        | Raise e => Raise e
        end
      else get_number_of_lines rest
  end.

Fixpoint bet_amount (stdin : list string) : Res (Z * list string) :=
  match stdin with
  | [] => Raise EOFError
  | amount :: rest =>
      if isdigit amount then
        match int amount with
        | Ok amount =>
            if (MIN_BET <=? amount) && (amount <=? MAX_BET) then Ok (amount, rest)
            else bet_amount rest
        | Raise e => Raise e
        end
      else bet_amount rest
  end.

(** A line that [get_number_of_lines] accepts as [lines]. *)
Definition lines_entry (line : string) (lines : Z) : Prop :=
  isdigit line = true ∧ int line = Ok lines ∧ 1 ≤ lines ≤ MAX_LINES.

(** A line that [bet_amount] accepts as [bet]. *)
Definition bet_entry (line : string) (bet : Z) : Prop :=
  isdigit line = true ∧ int line = Ok bet ∧ MIN_BET ≤ bet ≤ MAX_BET.

(** ** RoundController and BankrollSession: [game] and [main] *)

(** [print_slot_machine] writes only, but it indexes the grid: it reads
    [columns[0]] and then [column[row]] for every column and every row of
    the first column. *)
Definition print_slot_machine {Symbol : Type} (columns : list (list Symbol)) : Res unit :=
  column0 ← list_getitem columns 0;
  for_each (λ _ row,
      for_each (λ _ column, _ ← list_getitem column row; Ok ()) columns ())
    (range (Z.of_nat (length column0))) ().

Section Round.
Context {Rng : Type} (randbelow : nat → Rng → nat * Rng).

(** The [while True] loop of [game] that asks for a bet until the total
    is affordable.  Every iteration reads at least one line, so [gas]
    above the number of lines left is never used up. *)
Fixpoint bet_loop (gas : nat) (balance lines : Z) (stdin : list string) :
    Res (Z * Z * list string) :=
  match gas with
  | O => Raise EOFError
  | S gas =>
      '(bet, stdin) ← bet_amount stdin;
      let total_bet := bet * lines in
      if balance <? total_bet then bet_loop gas balance lines stdin
      else Ok (bet, total_bet, stdin)
  end.

Definition game (balance : Z) (stdin : list string) (g : Rng) :
    Res (Z * list string * Rng) :=
  '(lines, stdin) ← get_number_of_lines stdin;
  '(bet, total_bet, stdin) ← bet_loop (S (length stdin)) balance lines stdin;
  '(slots, g) ← get_slot_machine_spin randbelow ROWS COLS symbol_count g;
  _ ← print_slot_machine slots;
  '(winnings, winning_lines) ← check_winnings slots lines bet symbol_values;
  Ok (winnings - total_bet, stdin, g).

(** The state of the session loop of [main]. *)
Record Session : Type := mkSession {
  balance : Z;
  stdin : list string;
  rng : Rng
}.

(** One iteration of the [while True] loop of [main]: [None] on [q],
    otherwise the session after [balance += game(balance)]. *)
Definition main_iter (st : Session) : Res (option Session) :=
  '(answer, stdin) ← input (stdin st);
  if decide (answer = "q") then Ok None
  else
    '(delta, stdin, g) ← game (balance st) stdin (rng st);
    Ok (Some (mkSession (balance st + delta) stdin g)).

Fixpoint main_loop (gas : nat) (st : Session) : Res Z :=
  match gas with
  | O => Raise EOFError
  | S gas =>
      next ← main_iter st;
      match next with
      | None => Ok (balance st)
      | Some st => main_loop gas st
      end
  end.

(** [main]: the balance the player leaves with. *)
Definition main (stdin : list string) (g : Rng) : Res Z :=
  '(balance, stdin) ← deposit stdin;
  main_loop (S (length stdin)) (mkSession balance stdin g).

(** One completed iteration of the session loop. *)
Definition session_step (st st' : Session) : Prop :=
  main_iter st = Ok (Some st').

End Round.

(** ** Concrete inputs, to run the program on examples *)

(** The empty line typed by pressing enter. *)
Definition enter : string := EmptyString.

(** A linear congruential generator: the answer is the state reduced
    modulo the bound. *)
Definition lcg_randbelow (n : nat) (g : N) : nat * N :=
  (N.to_nat (g mod N.of_nat n), ((g * 1103515245 + 12345) mod 2147483648)%N).

(** The source that always answers 0: every draw takes the first symbol
    left in the pool. *)
Definition first_randbelow (n : nat) (g : unit) : nat * unit := (0%nat, g).

(** The grid of the specification's example: only row 0 is uniform. *)
Definition example_grid : list (list string) :=
  [["A"; "B"; "C"]; ["A"; "D"; "E"]; ["A"; "F"; "G"]].

(** A grid over the configured symbols: only row 0 is uniform. *)
Definition fair_grid : list (list string) :=
  [["A"; "B"; "C"]; ["A"; "D"; "C"]; ["A"; "B"; "D"]].

(** A grid whose last column is shorter than the two lines bet on, behind
    a column that differs from the first on both. *)
Definition ragged_grid : list (list string) :=
  [["A"; "A"]; ["B"; "B"]; ["A"]].

(** A table with a weight that is not positive. *)
Definition malformed_table : list (string * Z) := [("A", 0); ("B", 3)].

(** ** Further definitions: the validation loops

    [deposit], [get_number_of_lines] and [bet_amount] are one loop with
    three range tests.  [read_entry] is that loop with the test as a
    parameter; it serves to state what the three have in common. *)

Definition amount_ok (amount : Z) : bool := 0 <? amount.
Definition lines_ok (lines : Z) : bool := (1 <=? lines) && (lines <=? MAX_LINES).
Definition bet_ok (amount : Z) : bool := (MIN_BET <=? amount) && (amount <=? MAX_BET).

Fixpoint read_entry (ok : Z → bool) (stdin : list string) : Res (Z * list string) :=
  match stdin with
  | [] => Raise EOFError
  | line :: rest =>
      if isdigit line then
        match int line with
        | Ok n => if ok n then Ok (n, rest) else read_entry ok rest
        | Raise e => Raise e
        end
      else read_entry ok rest
  end.

(** A line the loop answers with a message and another prompt: not made
    of digits, or a number outside the range. *)
Definition line_skipped (ok : Z → bool) (line : string) : Prop :=
  isdigit line = false ∨ ∃ n, int line = Ok n ∧ ok n = false.

(** A line the loop returns the value of. *)
Definition line_accepted (ok : Z → bool) (line : string) (n : Z) : Prop :=
  isdigit line = true ∧ int line = Ok n ∧ ok n = true.


(** ** Further definitions: the payout evaluator *)

(** A uniform row whose symbol has no multiplier. *)
Definition unpaid_win `{Countable Symbol} (columns : list (list Symbol))
    (values : gmap Symbol Z) (line : Z) : Prop :=
  row_wins columns line = true
  ∧ ∃ s, hd [] columns !! Z.to_nat line = Some s ∧ values !! s = None.

(** ** Further definitions: what [print_slot_machine] writes

    The console output is the sequence of the strings written; an
    exception leaves what was written before it. *)

Definition newline : string := String (Ascii.ascii_of_N 10) EmptyString.

(** A loop of writing steps, stopping at the first exception. *)
Fixpoint for_each_out {A : Type} (body : A → list string * Res unit)
    (xs : list A) : list string * Res unit :=
  match xs with
  | [] => ([], Ok ())
  | x :: xs' =>
      match body x with
      | (out, Ok _) => let '(out', r) := for_each_out body xs' in (out ++ out', r)
      | (out, Raise e) => (out, Raise e)
      end
  end.

(** [enumerate(l)] *)
Definition enumerate {A : Type} (l : list A) : list (nat * A) :=
  zip (seq 0 (length l)) l.

(** The body of [for i, column in enumerate(columns)]: both branches of
    the test on [i] write the symbol and then [" | "]. *)
Definition print_cell (columns : list (list string)) (row : Z)
    (ic : nat * list string) : list string * Res unit :=
  let '(i, column) := ic in
  if decide (Z.of_nat i ≠ Z.of_nat (length columns) - 1) then
    match list_getitem column row with
    | Ok x => ([x; " | "], Ok ())
    | Raise e => ([], Raise e)
    end
  else
    match list_getitem column row with
    | Ok x => ([x; " | "], Ok ())
    | Raise e => ([], Raise e)
    end.

(** The body of [for row in range(len(columns[0]))]: the cells, then the
    newline of [print()]. *)
Definition print_row (columns : list (list string)) (row : Z) : list string * Res unit :=
  match for_each_out (print_cell columns row) (enumerate columns) with
  | (out, Ok _) => (out ++ [newline], Ok ())
  | (out, Raise e) => (out, Raise e)
  end.

(** [print_slot_machine] with what it writes. *)
Definition print_slot_machine_out (columns : list (list string)) : list string * Res unit :=
  match list_getitem columns 0 with
  | Ok column0 => for_each_out (print_row columns) (range (Z.of_nat (length column0)))
  | Raise e => ([], Raise e)
  end.

(** Row [row] of the grid as text: every column's symbol at that row,
    each followed by the separator, then a newline. *)
Definition row_text (columns : list (list string)) (row : nat) : list string :=
  concat ((λ c : list string, [default EmptyString (c !! row); " | "]) <$> columns)
  ++ [newline].

(** The grid as text: its rows, as many as the first column has. *)
Definition grid_text (columns : list (list string)) : list string :=
  concat (row_text columns <$> seq 0 (length (hd [] columns))).

(** A table whose pool is too small for three rows. *)
Definition small_table : list (string * Z) := [("A", 0); ("B", 2)].

(** ** Further definitions: the bet loop *)

(** The two tests a bet goes through: the range test of [bet_amount] and
    the test of [game] that the total does not exceed the balance. *)
Definition affordable_ok (balance lines bet : Z) : bool :=
  bet_ok bet && negb (balance <? bet * lines).

(** * Properties *)

(** ** Generic facts about results, loops and indexing *)

Lemma list_getitem_nonneg {A : Type} (l : list A) (i : Z) :
  0 ≤ i →
  list_getitem l i =
    match l !! Z.to_nat i with Some x => Ok x | None => Raise IndexError end.
Proof.
  intros Hi. unfold list_getitem.
  destruct (Z.ltb_spec i 0) as [?|_]; [lia|].
  destruct (Z.ltb_spec i 0) as [?|_]; [lia|]. done.
Qed.

Lemma list_getitem_Some {A : Type} (l : list A) (i : Z) (x : A) :
  0 ≤ i → l !! Z.to_nat i = Some x → list_getitem l i = Ok x.
Proof. intros Hi Hx. by rewrite list_getitem_nonneg, Hx. Qed.

Lemma list_getitem_None {A : Type} (l : list A) (i : Z) :
  0 ≤ i → l !! Z.to_nat i = None → list_getitem l i = Raise IndexError.
Proof. intros Hi Hx. by rewrite list_getitem_nonneg, Hx. Qed.

Lemma for_each_cons {A S : Type} (body : S → A → Res S) (x : A) (xs : list A) (s : S) :
  for_each body (x :: xs) s = s' ← body s x; for_each body xs s'.
Proof. reflexivity. Qed.

Lemma for_each_app {A S : Type} (body : S → A → Res S) (xs ys : list A) (s : S) :
  for_each body (xs ++ ys) s = s' ← for_each body xs s; for_each body ys s'.
Proof.
  revert s. induction xs as [|x xs IH]; intros s; simpl; [done|].
  destruct (body s x) as [s'|e]; simpl; [apply IH|done].
Qed.

Lemma bind_Ok {A B : Type} (a : A) (f : A → Res B) : (Ok a ≫= f) = f a.
Proof. reflexivity. Qed.

Lemma bind_Raise {A B : Type} (e : Exn) (f : A → Res B) : (Raise e ≫= f) = Raise e.
Proof. reflexivity. Qed.

Lemma for_each_ext {A S : Type} (f g : S → A → Res S) (xs : list A) (s : S) :
  (∀ s' x, x ∈ xs → f s' x = g s' x) →
  for_each f xs s = for_each g xs s.
Proof.
  revert s. induction xs as [|x xs IH]; intros s Hfg; [done|].
  rewrite !for_each_cons, Hfg by left.
  destruct (g s x) as [s'|e]; [|done]. rewrite !bind_Ok.
  apply IH. intros s'' y Hy. apply Hfg. by right.
Qed.

Lemma for_each_Raise {A S : Type} (body : S → A → Res S) (xs : list A) (s : S) (e : Exn) :
  for_each body xs s = Raise e → ∃ s' x, x ∈ xs ∧ body s' x = Raise e.
Proof.
  revert s. induction xs as [|x xs IH]; intros s; [done|].
  rewrite for_each_cons. destruct (body s x) as [s'|e'] eqn:Hb.
  - rewrite bind_Ok. intros (s'' & y & Hy & Hr)%IH.
    exists s'', y. split; [by right|done].
  - rewrite bind_Raise. intros [= ->]. exists s, x. split; [left|done].
Qed.

Lemma for_each_Raise_iff {A S : Type} (body : S → A → Res S) (R : A → Prop)
    (xs : list A) (s : S) :
  (∀ s' x, x ∈ xs → is_Raise (body s' x) ↔ R x) →
  is_Raise (for_each body xs s) ↔ ∃ x, x ∈ xs ∧ R x.
Proof.
  revert s. induction xs as [|x xs IH]; intros s Hbody.
  { split; [by intros [e ?]|by intros (x & ?%elem_of_nil & _)]. }
  rewrite for_each_cons. destruct (body s x) as [s1|e] eqn:Hb.
  - rewrite bind_Ok, IH by (intros; apply Hbody; by right). split.
    + intros (y & Hy & HR). exists y. split; [by right|done].
    + intros (y & [->|Hy]%elem_of_cons & HR); [|by exists y].
      apply (Hbody s) in HR as [e He]; [congruence|left].
  - rewrite bind_Raise. split; [|by exists e]. intros _. exists x.
    split; [left|]. apply (Hbody s); [left|by exists e].
Qed.

Lemma list_getitem_Raise {A : Type} (l : list A) (i : Z) (e : Exn) :
  list_getitem l i = Raise e → e = IndexError.
Proof.
  unfold list_getitem. destruct (_ <? 0); [congruence|].
  destruct (l !! _); congruence.
Qed.

Lemma list_getitem_elem_of {A : Type} (l : list A) (i : Z) (x : A) :
  list_getitem l i = Ok x → x ∈ l.
Proof.
  unfold list_getitem. destruct (_ <? 0); [congruence|].
  destruct (l !! _) as [y|] eqn:Hy; [|congruence].
  intros [= ->]. by eapply list_elem_of_lookup_2.
Qed.

Lemma elem_of_range (n i : Z) : i ∈ range n ↔ 0 ≤ i < n.
Proof. unfold range. rewrite elem_of_seqZ. lia. Qed.

Lemma range_sorted (m n : Z) : StronglySorted Z.lt (seqZ m n).
Proof.
  remember (Z.to_nat n) as k eqn:Hk. revert m n Hk.
  induction k as [|k IH]; intros m n Hk.
  - rewrite seqZ_nil by lia. constructor.
  - rewrite seqZ_cons by lia. constructor; [apply IH; lia|].
    apply Forall_seqZ. lia.
Qed.

Lemma sorted_filter_succ (p : Z → bool) (ls : list Z) :
  StronglySorted Z.lt ls →
  StronglySorted Z.lt ((λ i, i + 1) <$> List.filter p ls).
Proof.
  induction 1 as [|a ls _ IH Ha]; simpl; [constructor|].
  destruct (p a); [|exact IH]. rewrite fmap_cons. constructor; [exact IH|].
  apply Forall_forall. intros n [i [-> Hi]]%list_elem_of_fmap.
  apply list_elem_of_In, filter_In in Hi as [Hi _].
  rewrite Forall_forall in Ha. apply list_elem_of_In, Ha in Hi. lia.
Qed.

Lemma sumZ_app (l k : list Z) : sumZ (l ++ k) = sumZ l + sumZ k.
Proof. unfold sumZ. induction l as [|x l IH]; simpl; lia. Qed.

(** ** PayoutEvaluator *)

Section PayoutEvaluatorFacts.
Context `{Countable Symbol}.
Implicit Types (columns : list (list Symbol)) (values : gmap Symbol Z).
Implicit Types (symbol : Symbol) (lines bet line : Z).

Lemma has_row_of_lengths columns lines line :
  Forall (λ c : list Symbol, lines ≤ Z.of_nat (length c)) columns →
  0 ≤ line < lines → has_row line columns.
Proof.
  intros Hlen Hline. unfold has_row. eapply Forall_impl; [exact Hlen|].
  intros c Hc. apply lookup_lt_is_Some. simpl in Hc. lia.
Qed.

Lemma columns_match_total symbol line columns :
  0 ≤ line → has_row line columns →
  columns_match symbol line columns =
    Ok (forallb (λ c, bool_decide (c !! Z.to_nat line = Some symbol)) columns).
Proof.
  intros Hline. induction 1 as [|c cs [x Hx] _ IH]; simpl; [done|].
  rewrite (list_getitem_Some _ _ x) by done. simpl.
  rewrite Hx. destruct (decide (symbol ≠ x)) as [Hne|Heq].
  - rewrite bool_decide_eq_false_2; [done|congruence].
  - apply dec_stable in Heq. subst x.
    rewrite bool_decide_eq_true_2 by done. exact IH.
Qed.

Lemma row_wins_agrees columns line :
  row_wins columns line = true ↔ row_agrees columns line.
Proof.
  unfold row_wins, row_agrees. rewrite forallb_forall. split.
  - intros Hall c1 c2 H1 H2.
    apply list_elem_of_In, Hall, bool_decide_eq_true in H1.
    apply list_elem_of_In, Hall, bool_decide_eq_true in H2. congruence.
  - intros Hag c Hc. apply bool_decide_eq_true.
    destruct columns as [|c0 cs]; [by destruct Hc|].
    apply Hag; [by apply list_elem_of_In|left].
Qed.

Lemma check_line_ok c0 cs bet values line symbol value (w : Z) (wl : list Z) :
  0 ≤ line → has_row line (c0 :: cs) →
  c0 !! Z.to_nat line = Some symbol → values !! symbol = Some value →
  check_line (c0 :: cs) bet values (w, wl) line =
    Ok (if row_wins (c0 :: cs) line
        then (w + value * bet, wl ++ [line + 1]) else (w, wl)).
Proof.
  intros Hline Hrow Hs Hv. unfold check_line.
  rewrite (list_getitem_Some (c0 :: cs) 0 c0), bind_Ok by done.
  rewrite (list_getitem_Some c0 line symbol), bind_Ok by done.
  rewrite columns_match_total, bind_Ok by done.
  unfold row_wins. cbn [hd]. rewrite Hs.
  destruct (forallb _ _); [|done].
  unfold dict_getitem. by rewrite Hv.
Qed.

(** The outer loop over any list of row indices [ls] below [lines],
    started from an arbitrary accumulator. *)
Lemma check_lines_fold c0 cs lines bet values (ls : list Z) (w : Z) (wl : list Z) :
  Forall (λ c : list Symbol, lines ≤ Z.of_nat (length c)) (c0 :: cs) →
  (∀ s, s ∈ c0 → is_Some (values !! s)) →
  Forall (λ i, 0 ≤ i < lines) ls →
  for_each (check_line (c0 :: cs) bet values) ls (w, wl) =
    Ok (w + sumZ ((λ i, row_multiplier (c0 :: cs) values i * bet)
                   <$> List.filter (row_wins (c0 :: cs)) ls),
        wl ++ ((λ i, i + 1) <$> List.filter (row_wins (c0 :: cs)) ls)).
Proof.
  intros Hlen Hcov Hls. revert w wl.
  induction Hls as [|i ls Hi _ IH]; intros w wl.
  { simpl. f_equal. f_equal; [unfold sumZ; simpl; lia|by rewrite app_nil_r]. }
  assert (has_row i (c0 :: cs)) as Hrow by (by eapply has_row_of_lengths).
  pose proof Hrow as Hrow0. apply Forall_cons in Hrow0 as [[s Hs] _].
  destruct (Hcov s) as [v Hv]; [by eapply list_elem_of_lookup_2|].
  rewrite for_each_cons, (check_line_ok _ _ _ _ _ s v), bind_Ok by (done || lia).
  cbn [List.filter].
  destruct (row_wins (c0 :: cs) i) eqn:Hwin; rewrite IH; [|done].
  rewrite !fmap_cons. unfold row_multiplier at 2. cbn [hd]. rewrite Hs.
  cbn [mbind option_bind]. rewrite Hv. cbn [default].
  f_equal. f_equal; [unfold sumZ; simpl; lia|].
  by rewrite <- app_assoc.
Qed.

(** C1.  On a grid of at least one column, every column at least [lines]
    long, with [lines >= 1] and a multiplier table defined on every symbol
    of the grid, [check_winnings] returns normally; its winnings are the
    sum of [multipliers[grid[0][i]] * bet] over the rows [i] in
    [[0, lines)] at which all columns hold the same symbol; its winning
    lines are exactly the numbers [i + 1] of those rows, in ascending
    order. *)
Theorem check_winnings_correct columns lines bet values :
  columns ≠ [] →
  1 ≤ lines →
  Forall (λ c : list Symbol, lines ≤ Z.of_nat (length c)) columns →
  (∀ c s, c ∈ columns → s ∈ c → is_Some (values !! s)) →
  check_winnings columns lines bet values =
    Ok (spec_winnings columns lines bet values, spec_winning_lines columns lines)
  ∧ (∀ n, n ∈ spec_winning_lines columns lines ↔
          ∃ i, n = i + 1 ∧ 0 ≤ i < lines ∧ row_agrees columns i)
  ∧ StronglySorted Z.lt (spec_winning_lines columns lines).
Proof.
  intros Hne Hlines Hlen Hcov. split; [|split].
  - destruct columns as [|c0 cs]; [done|]. unfold check_winnings.
    rewrite (check_lines_fold c0 cs lines); [done|done| |].
    + intros s Hs. apply (Hcov c0); [left|done].
    + apply Forall_forall. intros i. by rewrite elem_of_range.
  - intros n. unfold spec_winning_lines, winning_rows.
    rewrite list_elem_of_fmap. split.
    + intros [i [-> Hi]]. apply list_elem_of_In, filter_In in Hi as [Hi Hw].
      exists i. apply list_elem_of_In, elem_of_range in Hi.
      by rewrite <- row_wins_agrees.
    + intros [i (-> & Hi & Hag)]. exists i. split; [done|].
      apply list_elem_of_In, filter_In. split.
      * by apply list_elem_of_In, elem_of_range.
      * by apply row_wins_agrees.
  - apply sorted_filter_succ, range_sorted.
Qed.

(** *** Rows at or beyond [lines] are never read *)

Lemma list_getitem_take (c : list Symbol) lines line :
  0 ≤ line < lines →
  list_getitem (take (Z.to_nat lines) c) line = list_getitem c line.
Proof.
  intros Hl. rewrite !list_getitem_nonneg by lia.
  rewrite lookup_take_lt by lia. done.
Qed.

Lemma columns_match_take symbol lines line columns :
  0 ≤ line < lines →
  columns_match symbol line (take (Z.to_nat lines) <$> columns) =
  columns_match symbol line columns.
Proof.
  intros Hl. induction columns as [|c cs IH]; [done|].
  rewrite fmap_cons. cbn [columns_match]. rewrite list_getitem_take by done.
  destruct (list_getitem c line) as [x|e]; [|done]. rewrite !bind_Ok.
  by destruct (decide _).
Qed.

Lemma check_line_take columns lines bet values acc line :
  0 ≤ line < lines →
  check_line (take (Z.to_nat lines) <$> columns) bet values acc line =
  check_line columns bet values acc line.
Proof.
  intros Hl. unfold check_line. destruct acc as [w wl].
  destruct columns as [|c0 cs]; [done|]. rewrite fmap_cons.
  rewrite (list_getitem_Some (_ :: _) 0 (take (Z.to_nat lines) c0)) by done.
  rewrite (list_getitem_Some (c0 :: cs) 0 c0) by done.
  rewrite !bind_Ok, list_getitem_take by done.
  destruct (list_getitem c0 line) as [s|e]; [|done]. rewrite !bind_Ok.
  by rewrite <- fmap_cons, columns_match_take.
Qed.

Lemma check_winnings_take columns lines bet values :
  check_winnings (take (Z.to_nat lines) <$> columns) lines bet values =
  check_winnings columns lines bet values.
Proof.
  unfold check_winnings. apply for_each_ext.
  intros acc line Hl%elem_of_range. by apply check_line_take.
Qed.

(** C3.  Two grids whose columns agree on their first [lines] entries give
    the same outcome, whether a result or an exception: what a column
    holds at row [lines] and beyond cannot influence the evaluation. *)
Theorem check_winnings_ignores_rows_beyond_lines columns1 columns2 lines bet values :
  take (Z.to_nat lines) <$> columns1 = take (Z.to_nat lines) <$> columns2 →
  check_winnings columns1 lines bet values =
  check_winnings columns2 lines bet values.
Proof.
  intros Heq.
  rewrite <- (check_winnings_take columns1), <- (check_winnings_take columns2).
  by rewrite Heq.
Qed.

(** *** A single column *)

Lemma row_wins_single (c0 : list Symbol) line : row_wins [c0] line = true.
Proof. unfold row_wins. simpl. by rewrite bool_decide_eq_true_2. Qed.

Lemma filter_row_wins_single (c0 : list Symbol) (ls : list Z) :
  List.filter (row_wins [c0]) ls = ls.
Proof.
  induction ls as [|i ls IH]; [done|].
  cbn [List.filter]. by rewrite row_wins_single, IH.
Qed.

Lemma sumZ_scale (f : Z → Z) (k : Z) (ls : list Z) :
  sumZ ((λ i, f i * k) <$> ls) = k * sumZ (f <$> ls).
Proof.
  induction ls as [|i ls IH]; [unfold sumZ; simpl; lia|].
  rewrite !fmap_cons. unfold sumZ in *. cbn [foldr]. rewrite IH. ring.
Qed.

(** C9.  With exactly one column, at least [lines] long, and a multiplier
    table covering its symbols, every inspected line wins: the winning
    lines are [1, ..., lines] and the winnings are [bet] times the sum of
    the multipliers of the column's first [lines] symbols. *)
Theorem check_winnings_single_column (c0 : list Symbol) lines bet values :
  1 ≤ lines →
  lines ≤ Z.of_nat (length c0) →
  (∀ s, s ∈ c0 → is_Some (values !! s)) →
  check_winnings [c0] lines bet values =
    Ok (bet * sumZ (row_multiplier [c0] values <$> range lines), seqZ 1 lines).
Proof.
  intros Hlines Hlen Hcov. unfold check_winnings.
  rewrite (check_lines_fold c0 [] lines); [|by repeat constructor|done|].
  - rewrite filter_row_wins_single, sumZ_scale, app_nil_l. f_equal. f_equal.
    unfold range. rewrite <- (fmap_add_seqZ 1 0).
    apply list_fmap_ext. intros _ i _. lia.
  - apply Forall_forall. intros i. by rewrite elem_of_range.
Qed.

(** *** Where [check_winnings] raises *)

Lemma columns_match_Raise symbol line columns e :
  columns_match symbol line columns = Raise e → e = IndexError.
Proof.
  induction columns as [|c cs IH]; [done|]. cbn [columns_match].
  destruct (list_getitem c line) as [x|e'] eqn:Hx.
  - rewrite bind_Ok. destruct (decide _); [done|exact IH].
  - rewrite bind_Raise. intros [= <-]. by eapply list_getitem_Raise.
Qed.

Lemma check_line_Raise c0 cs bet values acc line e :
  (∀ s, s ∈ c0 → is_Some (values !! s)) →
  check_line (c0 :: cs) bet values acc line = Raise e → e = IndexError.
Proof.
  intros Hcov. unfold check_line. destruct acc as [w wl].
  rewrite (list_getitem_Some (c0 :: cs) 0 c0), bind_Ok by done.
  destruct (list_getitem c0 line) as [s|e'] eqn:Hs.
  - rewrite bind_Ok.
    destruct (columns_match s line (c0 :: cs)) as [[]|e'] eqn:Hm.
    + rewrite bind_Ok. unfold dict_getitem.
      destruct (Hcov s) as [v ->]; [by eapply list_getitem_elem_of|done].
    + by rewrite bind_Ok.
    + rewrite bind_Raise. intros [= <-]. by eapply columns_match_Raise.
  - rewrite bind_Raise. intros [= <-]. by eapply list_getitem_Raise.
Qed.

Lemma check_winnings_empty lines bet values :
  1 ≤ lines →
  check_winnings ([] : list (list Symbol)) lines bet values = Raise IndexError.
Proof.
  intros Hl. unfold check_winnings, range. by rewrite seqZ_cons by lia.
Qed.

Lemma check_winnings_first_short c0 cs lines bet values :
  Z.of_nat (length c0) < lines →
  is_Raise (check_winnings (c0 :: cs) lines bet values).
Proof.
  intros Hlen. unfold check_winnings, range.
  replace lines with (Z.of_nat (length c0) + (lines - Z.of_nat (length c0))) by lia.
  rewrite seqZ_app, for_each_app by lia.
  destruct (for_each _ (seqZ 0 _) _) as [[w wl]|e]; [|by eexists].
  rewrite bind_Ok, seqZ_cons, for_each_cons by lia.
  unfold check_line at 2.
  rewrite (list_getitem_Some (c0 :: cs) 0 c0), bind_Ok by done.
  rewrite (list_getitem_None c0); [by eexists|lia|].
  apply lookup_ge_None. lia.
Qed.

Lemma check_winnings_Raise c0 cs lines bet values e :
  (∀ s, s ∈ c0 → is_Some (values !! s)) →
  check_winnings (c0 :: cs) lines bet values = Raise e → e = IndexError.
Proof.
  intros Hcov (acc & line & _ & Hr)%for_each_Raise.
  by eapply check_line_Raise.
Qed.

Lemma check_winnings_returns c0 cs lines bet values :
  Forall (λ c : list Symbol, lines ≤ Z.of_nat (length c)) (c0 :: cs) →
  (∀ s, s ∈ c0 → is_Some (values !! s)) →
  is_Ok (check_winnings (c0 :: cs) lines bet values).
Proof.
  intros Hlen Hcov. unfold check_winnings.
  rewrite (check_lines_fold c0 cs lines); [by eexists|done|done|].
  apply Forall_forall. intros i. by rewrite elem_of_range.
Qed.

Lemma columns_match_Raise_iff symbol line columns :
  0 ≤ line →
  is_Raise (columns_match symbol line columns) ↔
  ∃ (j : nat) (c : list Symbol),
    columns !! j = Some c ∧ c !! Z.to_nat line = None
    ∧ ∀ (k : nat) (c' : list Symbol), (k < j)%nat → columns !! k = Some c' →
        c' !! Z.to_nat line = Some symbol.
Proof.
  intros Hline. induction columns as [|c cs IH].
  { split; [by intros [e ?]|]. intros (j & c & Hj & _). by rewrite lookup_nil in Hj. }
  cbn [columns_match]. rewrite list_getitem_nonneg by done.
  destruct (c !! Z.to_nat line) as [x|] eqn:Hx.
  - rewrite bind_Ok. destruct (decide (symbol ≠ x)) as [Hne|Heq].
    + split; [by intros [e ?]|]. intros (j & c1 & Hj & Hnone & Hbefore).
      destruct j as [|j].
      * injection Hj as <-. congruence.
      * specialize (Hbefore 0%nat c ltac:(lia) eq_refl). congruence.
    + apply dec_stable in Heq. subst x. rewrite IH. split.
      * intros (j & c1 & Hj & Hnone & Hbefore). exists (S j), c1.
        split; [done|]. split; [done|]. intros [|k] c' Hk Hc'.
        -- by injection Hc' as <-.
        -- apply (Hbefore k); [lia|done].
      * intros (j & c1 & Hj & Hnone & Hbefore). destruct j as [|j].
        -- injection Hj as <-. congruence.
        -- exists j, c1. split; [done|]. split; [done|].
           intros k c' Hk Hc'. apply (Hbefore (S k)); [lia|done].
  - rewrite bind_Raise. split; [|by eexists]. intros _. exists 0%nat, c.
    split; [done|]. split; [done|]. intros k c' Hk. lia.
Qed.

Lemma check_line_Raise_iff c0 cs bet values acc line :
  0 ≤ line →
  (∀ s, s ∈ c0 → is_Some (values !! s)) →
  is_Raise (check_line (c0 :: cs) bet values acc line) ↔
  reads_missing_row (c0 :: cs) line.
Proof.
  intros Hline Hcov. unfold check_line, reads_missing_row. destruct acc as [w wl].
  rewrite (list_getitem_Some (c0 :: cs) 0 c0), bind_Ok by done. cbn [hd].
  rewrite list_getitem_nonneg by done.
  destruct (c0 !! Z.to_nat line) as [s|] eqn:Hs.
  - rewrite bind_Ok.
    pose proof (columns_match_Raise_iff s line (c0 :: cs) Hline) as Hiff.
    destruct (columns_match s line (c0 :: cs)) as [[]|e].
    + rewrite bind_Ok. unfold dict_getitem.
      destruct (Hcov s) as [v ->]; [by eapply list_elem_of_lookup_2|].
      rewrite bind_Ok. split; [by intros [e ?]|].
      intros HR. by apply Hiff in HR as [e ?].
    + rewrite bind_Ok. split; [by intros [e ?]|].
      intros HR. by apply Hiff in HR as [e' ?].
    + rewrite bind_Raise. split; [|by eexists]. intros _. apply Hiff. by eexists.
  - rewrite bind_Raise. split; [|by eexists]. intros _. exists 0%nat, c0.
    split; [done|]. split; [done|]. intros k c' Hk. lia.
Qed.

Lemma check_winnings_Raise_iff c0 cs lines bet values :
  (∀ s, s ∈ c0 → is_Some (values !! s)) →
  is_Raise (check_winnings (c0 :: cs) lines bet values) ↔
  ∃ line, 0 ≤ line < lines ∧ reads_missing_row (c0 :: cs) line.
Proof.
  intros Hcov. unfold check_winnings.
  rewrite (for_each_Raise_iff _ (reads_missing_row (c0 :: cs))).
  - by setoid_rewrite elem_of_range.
  - intros acc line Hl%elem_of_range. apply check_line_Raise_iff; [lia|done].
Qed.

(** C10, as amended.  With [lines >= 1], [check_winnings] raises
    [IndexError] on an empty list of columns, and it raises when the first
    column is shorter than [lines].  On a non-empty list whose first
    column holds only symbols of the multiplier table, it raises exactly
    when at some row below [lines] the inner loop reaches a column that
    lacks the row, that is, when every column before that one holds the
    first column's symbol there; the exception is then [IndexError]; and
    it returns normally when every column is at least [lines] long. *)
Theorem check_winnings_partiality columns lines bet values :
  1 ≤ lines →
  (columns = [] →
     check_winnings columns lines bet values = Raise IndexError)
  ∧ (∀ c0 cs, columns = c0 :: cs → Z.of_nat (length c0) < lines →
       is_Raise (check_winnings columns lines bet values))
  ∧ (∀ c0 cs, columns = c0 :: cs →
       (∀ s, s ∈ c0 → is_Some (values !! s)) →
       (is_Raise (check_winnings columns lines bet values) ↔
        ∃ line, 0 ≤ line < lines ∧ reads_missing_row columns line)
       ∧ (∀ e, check_winnings columns lines bet values = Raise e → e = IndexError)
       ∧ (Forall (λ c : list Symbol, lines ≤ Z.of_nat (length c)) columns →
          is_Ok (check_winnings columns lines bet values))).
Proof.
  intros Hl. split; [|split].
  - intros ->. by apply check_winnings_empty.
  - intros c0 cs -> Hlen. by apply check_winnings_first_short.
  - intros c0 cs -> Hcov. split; [|split].
    + by apply check_winnings_Raise_iff.
    + intros e. by apply check_winnings_Raise.
    + intros Hlen. by apply check_winnings_returns.
Qed.

End PayoutEvaluatorFacts.

(** ** SymbolPool *)

Section SymbolPoolFacts.
Context {Symbol : Type} `{EqDecision Symbol}.
Implicit Types (symbols : list (Symbol * Z)) (s : Symbol) (l : list Symbol).

Lemma count_nil s : count s [] = 0%nat.
Proof. reflexivity. Qed.

Lemma count_app s l1 l2 : count s (l1 ++ l2) = (count s l1 + count s l2)%nat.
Proof. unfold count. by rewrite filter_app, length_app. Qed.

Lemma count_replicate s s' (n : nat) :
  count s (replicate n s') = if decide (s' = s) then n else 0%nat.
Proof.
  unfold count. induction n as [|n IH]; simpl; [by destruct (decide _)|].
  destruct (decide (s' = s)) as [Heq|Hne].
  - rewrite filter_cons_True by done. simpl. by rewrite IH.
  - by rewrite filter_cons_False.
Qed.

Lemma count_perm s l1 l2 : l1 ≡ₚ l2 → count s l1 = count s l2.
Proof. intros Hp. unfold count. by rewrite Hp. Qed.

Lemma count_zero_not_elem_of s l : count s l = 0%nat ↔ s ∉ l.
Proof.
  unfold count. rewrite length_zero_iff_nil. split.
  - intros Hnil Hin. by eapply (filter_nil_not_elem_of (λ y, y = s)).
  - intros Hnin. induction l as [|x l IH]; [done|].
    apply not_elem_of_cons in Hnin as [Hne Hnin].
    rewrite filter_cons_False by done. by apply IH.
Qed.

Lemma append_loop s (acc : list Symbol) (ls : list Z) :
  foldl (λ acc _, acc ++ [s]) acc ls = acc ++ replicate (length ls) s.
Proof.
  revert acc. induction ls as [|i ls IH]; intros acc; simpl.
  - by rewrite app_nil_r.
  - rewrite IH. by rewrite <- app_assoc.
Qed.

Lemma build_pool_from symbols (acc : list Symbol) :
  foldl (λ all_symbols '(symbol, symbol_count),
           foldl (λ acc _, acc ++ [symbol]) all_symbols (range symbol_count))
        acc symbols = acc ++ pool_of symbols.
Proof.
  revert acc. induction symbols as [|[s c] symbols IH]; intros acc.
  - unfold pool_of. simpl. by rewrite app_nil_r.
  - cbn [foldl]. rewrite IH, append_loop. unfold range, pool_of.
    rewrite length_seqZ, fmap_cons. simpl. by rewrite <- app_assoc.
Qed.

Lemma build_pool_pool_of symbols : build_pool symbols = pool_of symbols.
Proof. unfold build_pool. by rewrite build_pool_from. Qed.

Lemma pool_of_cons s (c : Z) symbols :
  pool_of ((s, c) :: symbols) = replicate (Z.to_nat c) s ++ pool_of symbols.
Proof. reflexivity. Qed.

Lemma count_pool_absent s symbols :
  s ∉ symbols.*1 → count s (pool_of symbols) = 0%nat.
Proof.
  induction symbols as [|[s' c] symbols IH]; [done|].
  rewrite fmap_cons, not_elem_of_cons. simpl. intros [Hne Hnin].
  rewrite pool_of_cons, count_app, count_replicate, IH by done.
  by rewrite decide_False by done.
Qed.

Lemma count_pool_present s (w : Z) symbols :
  NoDup (symbols.*1) → (s, w) ∈ symbols →
  count s (pool_of symbols) = Z.to_nat w.
Proof.
  induction symbols as [|[s' c] symbols IH]; [by intros _ ?%elem_of_nil|].
  rewrite fmap_cons, NoDup_cons. simpl. intros [Hnin Hnd] Hin.
  rewrite pool_of_cons, count_app, count_replicate.
  apply elem_of_cons in Hin as [[= <- <-]|Hin].
  - rewrite decide_True, count_pool_absent by done. lia.
  - rewrite decide_False, IH; [done|done|done|].
    intros ->. apply Hnin. apply list_elem_of_fmap. by exists (s, w).
Qed.

Lemma length_pool_of symbols :
  Forall (λ sw, 0 ≤ sw.2) symbols →
  Z.of_nat (length (pool_of symbols)) = sumZ (symbols.*2).
Proof.
  induction 1 as [|[s c] symbols Hc _ IH]; [done|].
  rewrite pool_of_cons, length_app, length_replicate, fmap_cons.
  unfold sumZ in *. simpl in *. lia.
Qed.

(** C6.  For a symbol table (distinct symbols, positive weights) the pool
    holds each symbol of the table exactly as many times as its weight
    and no other symbol, and its size is the sum of the weights.  The pool
    is a function of the table alone: the spin starts every column from
    [build_pool symbols], whatever the generator. *)
Theorem build_pool_counts symbols :
  table_wf symbols →
  (∀ s w, (s, w) ∈ symbols → Z.of_nat (count s (build_pool symbols)) = w)
  ∧ (∀ s, s ∉ symbols.*1 → count s (build_pool symbols) = 0%nat)
  ∧ Z.of_nat (length (build_pool symbols)) = sumZ (symbols.*2)
  ∧ (∀ (Rng : Type) (randbelow : nat → Rng → nat * Rng) rows cols g,
       get_slot_machine_spin randbelow rows cols symbols g =
       for_each (draw_column randbelow rows (build_pool symbols))
                (range cols) ([], g)).
Proof.
  intros [Hnd Hpos]. split; [|split; [|split]].
  - intros s w Hin.
    rewrite build_pool_pool_of, (count_pool_present s w) by done.
    rewrite Forall_forall in Hpos. apply Hpos in Hin. simpl in Hin. lia.
  - intros s. rewrite build_pool_pool_of. apply count_pool_absent.
  - rewrite build_pool_pool_of. apply length_pool_of.
    eapply Forall_impl; [exact Hpos|]. simpl. lia.
  - reflexivity.
Qed.

End SymbolPoolFacts.

(** ** SpinGenerator *)

Section SpinGeneratorFacts.
Context {Symbol : Type} `{EqDecision Symbol}.
Context {Rng : Type} (randbelow : nat → Rng → nat * Rng).
Implicit Types (symbols : list (Symbol * Z)) (s value : Symbol).
Implicit Types (column current pool : list Symbol) (g : Rng).

(** The random source answers below its bound. *)
Hypothesis randbelow_lt : ∀ (n : nat) g, (0 < n)%nat → ((randbelow n g).1 < n)%nat.

Lemma list_remove_value_perm value current current' :
  list_remove_value value current = Ok current' → current ≡ₚ value :: current'.
Proof.
  revert current'. induction current as [|y l IH]; intros l'; [done|].
  cbn [list_remove_value]. destruct (decide (y = value)) as [->|Hne].
  - by intros [= ->].
  - destruct (list_remove_value value l) as [l''|e]; [|done].
    rewrite bind_Ok. intros [= <-].
    rewrite (IH l'' eq_refl). apply Permutation_swap.
Qed.

Lemma list_remove_value_ok value current :
  value ∈ current → is_Ok (list_remove_value value current).
Proof.
  induction current as [|y l IH]; [by intros ?%elem_of_nil|].
  cbn [list_remove_value]. intros Hin.
  destruct (decide (y = value)) as [->|Hne]; [by eexists|].
  apply elem_of_cons in Hin as [->|Hin]; [done|].
  destruct (IH Hin) as [l' ->]. by eexists.
Qed.

Lemma random_choice_elem_of (seq : list Symbol) g value g' :
  random_choice randbelow seq g = Ok (value, g') → value ∈ seq.
Proof.
  unfold random_choice. destruct (decide _); [done|].
  destruct (randbelow _ g) as [i g1].
  destruct (list_getitem seq _) as [x|e] eqn:Hx; [|done].
  rewrite bind_Ok. intros [= <- _]. by eapply list_getitem_elem_of.
Qed.

Lemma random_choice_ok (seq : list Symbol) g :
  seq ≠ [] → is_Ok (random_choice randbelow seq g).
Proof.
  intros Hne. unfold random_choice.
  destruct (decide _) as [Hz|Hnz]; [by destruct seq|].
  pose proof (randbelow_lt (length seq) g) as Hlt.
  destruct (randbelow _ g) as [i g1]. simpl in Hlt.
  destruct (lookup_lt_is_Some_2 seq i) as [x Hx]; [lia|].
  rewrite (list_getitem_Some seq _ x), bind_Ok; [by eexists|lia|].
  by rewrite Nat2Z.id.
Qed.

(** The inner loop moves symbols from [current_symbols] to [column], one
    per iteration. *)
Lemma draw_symbols_inv (ls : list Z) column current g column' current' g' :
  for_each (draw_symbol randbelow) ls (column, current, g) =
    Ok (column', current', g') →
  ∃ drawn, column' = column ++ drawn ∧ length drawn = length ls
           ∧ current ≡ₚ drawn ++ current'.
Proof.
  revert column current g.
  induction ls as [|i ls IH]; intros column current g.
  { intros [= <- <- _]. exists []. by rewrite app_nil_r. }
  rewrite for_each_cons. unfold draw_symbol at 2.
  destruct (random_choice _ current g) as [[value g1]|e]; [|done].
  rewrite bind_Ok.
  destruct (list_remove_value value current) as [current1|e] eqn:Hrm; [|done].
  rewrite !bind_Ok. intros (drawn & -> & Hlen & Hperm)%IH.
  exists (value :: drawn). split; [by rewrite <- app_assoc|].
  split; [simpl; by rewrite Hlen|].
  apply list_remove_value_perm in Hrm. rewrite Hrm. simpl. by rewrite Hperm.
Qed.

Lemma draw_symbols_ok (ls : list Z) column current g :
  (length ls ≤ length current)%nat →
  is_Ok (for_each (draw_symbol randbelow) ls (column, current, g)).
Proof.
  revert column current g.
  induction ls as [|i ls IH]; intros column current g Hlen; [by eexists|].
  rewrite for_each_cons. unfold draw_symbol at 2.
  destruct (random_choice_ok current g) as [[value g1] Hch].
  { destruct current; [simpl in Hlen; lia|done]. }
  rewrite Hch, bind_Ok.
  destruct (list_remove_value_ok value current) as [current1 Hrm].
  { by eapply random_choice_elem_of. }
  rewrite Hrm, !bind_Ok. apply IH.
  apply list_remove_value_perm, Permutation_length in Hrm.
  simpl in *. lia.
Qed.

(** The outer loop appends one column per iteration; every column has
    [rows] symbols, all taken out of the pool. *)
Lemma draw_columns_inv rows pool (ls : list Z) (columns columns' : list (list Symbol)) g g' :
  for_each (draw_column randbelow rows pool) ls (columns, g) = Ok (columns', g') →
  ∃ new, columns' = columns ++ new ∧ length new = length ls
         ∧ Forall (λ column, length column = Z.to_nat rows
                             ∧ ∃ rest, pool ≡ₚ column ++ rest) new.
Proof.
  revert columns g. induction ls as [|i ls IH]; intros columns g.
  { intros [= <- _]. exists []. by rewrite app_nil_r. }
  rewrite for_each_cons. unfold draw_column at 2.
  destruct (for_each _ (range rows) _) as [[[column rest] g1]|e] eqn:Hcol; [|done].
  rewrite !bind_Ok. intros (new & -> & Hlen & Hall)%IH.
  apply draw_symbols_inv in Hcol as (drawn & -> & Hd & Hperm).
  exists (drawn :: new). split; [by rewrite <- app_assoc|].
  split; [simpl; by rewrite Hlen|]. constructor; [|done].
  split; [|by exists rest].
  unfold range in Hd. by rewrite length_seqZ in Hd.
Qed.

Lemma draw_columns_ok rows pool (ls : list Z) (columns : list (list Symbol)) g :
  (Z.to_nat rows ≤ length pool)%nat →
  is_Ok (for_each (draw_column randbelow rows pool) ls (columns, g)).
Proof.
  intros Hrows. revert columns g.
  induction ls as [|i ls IH]; intros columns g; [by eexists|].
  rewrite for_each_cons. unfold draw_column at 2.
  destruct (draw_symbols_ok (range rows) [] pool g) as [[[column rest] g1] Hcol].
  { unfold range. by rewrite length_seqZ. }
  rewrite Hcol, !bind_Ok. apply IH.
Qed.

(** The spin, whenever it returns: the shape of its grid, and where its
    symbols come from.  This part needs nothing of the random source. *)
Lemma get_slot_machine_spin_inv rows cols symbols g (grid : list (list Symbol)) g' :
  get_slot_machine_spin randbelow rows cols symbols g = Ok (grid, g') →
  length grid = Z.to_nat cols
  ∧ Forall (λ column, length column = Z.to_nat rows
                      ∧ ∃ rest, build_pool symbols ≡ₚ column ++ rest) grid.
Proof.
  unfold get_slot_machine_spin.
  intros (new & -> & Hlen & Hall)%draw_columns_inv.
  split; [|done]. unfold range in Hlen. by rewrite length_seqZ in Hlen.
Qed.

Lemma get_slot_machine_spin_ok rows cols symbols g :
  (Z.to_nat rows ≤ length (build_pool symbols))%nat →
  is_Ok (get_slot_machine_spin randbelow rows cols symbols g).
Proof. intros Hrows. by apply draw_columns_ok. Qed.

(** C5.  For a symbol table, [rows] between 0 and the sum of the weights
    and [cols >= 0], the spin returns a grid of exactly [cols] columns,
    each of exactly [rows] symbols, and in each column a symbol of the
    table occurs at most as often as its weight, and no other symbol
    occurs. *)
Theorem get_slot_machine_spin_shape rows cols symbols g :
  table_wf symbols →
  0 ≤ rows ≤ sumZ (symbols.*2) →
  0 ≤ cols →
  ∃ grid g',
    get_slot_machine_spin randbelow rows cols symbols g = Ok (grid, g')
    ∧ Z.of_nat (length grid) = cols
    ∧ Forall (λ column,
        Z.of_nat (length column) = rows
        ∧ (∀ s w, (s, w) ∈ symbols → Z.of_nat (count s column) ≤ w)
        ∧ (∀ s, s ∉ symbols.*1 → s ∉ column)) grid.
Proof.
  intros [Hnd Hpos] Hrows Hcols.
  assert (Z.of_nat (length (build_pool symbols)) = sumZ (symbols.*2)) as Hsize.
  { rewrite build_pool_pool_of. apply length_pool_of.
    eapply Forall_impl; [exact Hpos|]. simpl. lia. }
  destruct (get_slot_machine_spin_ok rows cols symbols g) as [[grid g'] Hspin];
    [lia|].
  exists grid, g'. split; [done|].
  apply get_slot_machine_spin_inv in Hspin as [Hlen Hall].
  split; [lia|]. eapply Forall_impl; [exact Hall|].
  intros column [Hc [rest Hperm]]. rewrite build_pool_pool_of in Hperm.
  split; [lia|]. split.
  - intros s w Hin. pose proof (count_pool_present s w symbols Hnd Hin) as Hw.
    rewrite (count_perm s _ _ Hperm), count_app in Hw.
    rewrite Forall_forall in Hpos. apply Hpos in Hin. simpl in Hin. lia.
  - intros s Hs. apply count_zero_not_elem_of.
    pose proof (count_pool_absent s symbols Hs) as Hz.
    rewrite (count_perm s _ _ Hperm), count_app in Hz. lia.
Qed.

End SpinGeneratorFacts.

Section PoolBuildingFacts.
Context {Symbol : Type} `{EqDecision Symbol}.
Implicit Types (symbols : list (Symbol * Z)) (s : Symbol).

Lemma draw_columns_no_rows {Rng : Type} (randbelow : nat → Rng → nat * Rng)
    (pool : list Symbol) (ls : list Z) (columns : list (list Symbol)) (g : Rng) :
  for_each (draw_column randbelow 0 pool) ls (columns, g) =
    Ok (columns ++ replicate (length ls) [], g).
Proof.
  revert columns. induction ls as [|i ls IH]; intros columns.
  - simpl. by rewrite app_nil_r.
  - rewrite for_each_cons. unfold draw_column at 2. unfold range at 1.
    rewrite seqZ_nil by done. cbn [for_each]. rewrite !bind_Ok, IH.
    simpl. by rewrite <- app_assoc.
Qed.

(** C8, as amended.  Building the pool never fails, on any table: a symbol
    is expanded into as many copies as its weight when that is positive
    and into none when it is zero or negative, and no error is raised for
    such a weight; a spin that draws no rows, which does nothing but
    build the pool and open its columns, returns normally on every
    table. *)
Theorem build_pool_total symbols :
  NoDup (symbols.*1) →
  (∀ s w, (s, w) ∈ symbols → count s (build_pool symbols) = Z.to_nat w)
  ∧ (∀ s w, (s, w) ∈ symbols → w ≤ 0 → s ∉ build_pool symbols)
  ∧ (∀ (Rng : Type) (randbelow : nat → Rng → nat * Rng) cols g,
       get_slot_machine_spin randbelow 0 cols symbols g =
       Ok (replicate (Z.to_nat cols) [], g)).
Proof.
  intros Hnd. split; [|split].
  - intros s w Hin. rewrite build_pool_pool_of. by apply count_pool_present.
  - intros s w Hin Hw. apply count_zero_not_elem_of.
    rewrite build_pool_pool_of, (count_pool_present s w) by done. lia.
  - intros Rng randbelow cols g. unfold get_slot_machine_spin.
    rewrite draw_columns_no_rows. unfold range. by rewrite length_seqZ.
Qed.

End PoolBuildingFacts.

(** ** Console input *)

Lemma decimal_value_nonneg (cs : list Ascii.ascii) (acc : Z) :
  0 ≤ acc → forallb is_decimal cs = true →
  0 ≤ foldl (λ acc c, acc * 10 + digit_value c) acc cs.
Proof.
  revert acc. induction cs as [|c cs IH]; intros acc Hacc; [done|].
  cbn [forallb foldl]. intros [Hc Hcs]%andb_prop. apply IH; [|done].
  unfold is_decimal in Hc. apply andb_prop in Hc as [Hlo%N.leb_le _].
  unfold digit_value. lia.
Qed.

Lemma int_nonneg (s : string) (n : Z) : int s = Ok n → 0 ≤ n.
Proof.
  unfold int. destruct (forallb _ _) eqn:Hall; [|done]. intros [= <-].
  by apply decimal_value_nonneg.
Qed.

Lemma deposit_inv (stdin : list string) (amount : Z) (rest : list string) :
  deposit stdin = Ok (amount, rest) →
  0 < amount ∧ (length rest < length stdin)%nat.
Proof.
  induction stdin as [|line stdin IH]; [done|]. cbn [deposit length].
  destruct (isdigit line); [|intros []%IH; lia].
  destruct (int line) as [n|e]; [|done].
  destruct (Z.ltb_spec 0 n); [|intros []%IH; lia].
  intros [= <- <-]. lia.
Qed.

Lemma get_number_of_lines_inv (stdin : list string) (lines : Z) (rest : list string) :
  get_number_of_lines stdin = Ok (lines, rest) →
  1 ≤ lines ≤ MAX_LINES ∧ (length rest < length stdin)%nat.
Proof.
  induction stdin as [|line stdin IH]; [done|]. cbn [get_number_of_lines length].
  destruct (isdigit line); [|intros []%IH; lia].
  destruct (int line) as [n|e]; [|done].
  destruct (Z.leb_spec 1 n), (Z.leb_spec n MAX_LINES); cbn [andb];
    try (intros []%IH; lia).
  intros [= <- <-]. lia.
Qed.

Lemma bet_amount_inv (stdin : list string) (bet : Z) (rest : list string) :
  bet_amount stdin = Ok (bet, rest) →
  MIN_BET ≤ bet ≤ MAX_BET ∧ (length rest < length stdin)%nat.
Proof.
  induction stdin as [|line stdin IH]; [done|]. cbn [bet_amount length].
  destruct (isdigit line); [|intros []%IH; lia].
  destruct (int line) as [n|e]; [|done].
  destruct (Z.leb_spec MIN_BET n), (Z.leb_spec n MAX_BET); cbn [andb];
    try (intros []%IH; lia).
  intros [= <- <-]. lia.
Qed.

Lemma get_number_of_lines_entry (line : string) (lines : Z) (rest : list string) :
  lines_entry line lines → get_number_of_lines (line :: rest) = Ok (lines, rest).
Proof.
  intros (Hd & Hi & Hlo & Hhi). cbn [get_number_of_lines]. rewrite Hd, Hi.
  destruct (Z.leb_spec 1 lines), (Z.leb_spec lines MAX_LINES); done || lia.
Qed.

Lemma bet_amount_entry (line : string) (bet : Z) (rest : list string) :
  bet_entry line bet → bet_amount (line :: rest) = Ok (bet, rest).
Proof.
  intros (Hd & Hi & Hlo & Hhi). cbn [bet_amount]. rewrite Hd, Hi.
  destruct (Z.leb_spec MIN_BET bet), (Z.leb_spec bet MAX_BET); done || lia.
Qed.

(** ** Winnings are never negative *)

Lemma for_each_inv {A S : Type} (P : S → Prop) (body : S → A → Res S)
    (xs : list A) (s s' : S) :
  (∀ s x s', P s → body s x = Ok s' → P s') →
  P s → for_each body xs s = Ok s' → P s'.
Proof.
  intros Hbody. revert s. induction xs as [|x xs IH]; intros s Hs.
  - by intros [= <-].
  - rewrite for_each_cons. destruct (body s x) as [s1|e] eqn:Hb; [|done].
    rewrite bind_Ok. apply IH. by eapply Hbody.
Qed.

Lemma check_winnings_nonneg `{Countable Symbol} (columns : list (list Symbol))
    (lines bet : Z) (values : gmap Symbol Z) (winnings : Z) (winning_lines : list Z) :
  (∀ s v, values !! s = Some v → 0 ≤ v) →
  0 ≤ bet →
  check_winnings columns lines bet values = Ok (winnings, winning_lines) →
  0 ≤ winnings.
Proof.
  intros Hval Hbet Hcw.
  apply (for_each_inv (λ acc : Z * list Z, 0 ≤ acc.1)) in Hcw; [done| |done].
  intros [w wl] line [w' wl'] Hw. unfold check_line. simpl in Hw.
  destruct (list_getitem columns 0) as [c0|e]; [|done]. rewrite bind_Ok.
  destruct (list_getitem c0 line) as [s|e]; [|done]. rewrite bind_Ok.
  destruct (columns_match s line columns) as [[]|e]; [| |done]; rewrite bind_Ok.
  - unfold dict_getitem. destruct (values !! s) as [v|] eqn:Hv; [|done].
    rewrite bind_Ok. intros [= <- _]. apply Hval in Hv. simpl. nia.
  - by intros [= <- _].
Qed.

Lemma symbol_values_lookup (s : string) (v : Z) :
  symbol_values !! s = Some v → 2 ≤ v ≤ 5.
Proof.
  intros Hv. apply elem_of_list_to_map_2 in Hv.
  repeat (apply elem_of_cons in Hv as [[= -> ->]|Hv]; [lia|]).
  by apply elem_of_nil in Hv.
Qed.

Lemma symbol_values_covers_pool (s : string) :
  s ∈ build_pool symbol_count → is_Some (symbol_values !! s).
Proof.
  intros Hs. change (build_pool symbol_count) with (pool_of symbol_count) in Hs.
  repeat (apply elem_of_cons in Hs as [->|Hs]; [by eexists|]).
  by apply elem_of_nil in Hs.
Qed.

(** ** Printing a rectangular grid does not raise *)

Lemma print_row_ok {Symbol : Type} (columns : list (list Symbol)) (row : Z) :
  0 ≤ row →
  Forall (λ c : list Symbol, is_Some (c !! Z.to_nat row)) columns →
  for_each (λ (_ : unit) (column : list Symbol),
              _ ← list_getitem column row; Ok ()) columns () = Ok ().
Proof.
  intros Hrow. induction 1 as [|c cs [x Hx] _ IH]; [done|].
  rewrite for_each_cons, (list_getitem_Some c row x), !bind_Ok by done.
  exact IH.
Qed.

Lemma print_slot_machine_ok {Symbol : Type} (columns : list (list Symbol)) (n : nat) :
  columns ≠ [] →
  Forall (λ c : list Symbol, length c = n) columns →
  print_slot_machine columns = Ok ().
Proof.
  intros Hne Hlen. destruct columns as [|c0 cs]; [done|].
  unfold print_slot_machine.
  rewrite (list_getitem_Some (c0 :: cs) 0 c0), bind_Ok by done.
  assert (Forall (λ row, 0 ≤ row < Z.of_nat n) (range (Z.of_nat (length c0)))) as Hrows.
  { apply Forall_forall. intros row Hr%elem_of_range.
    apply Forall_cons in Hlen as [<- _]. done. }
  induction Hrows as [|row rows Hrow _ IH]; [done|].
  rewrite for_each_cons, print_row_ok, bind_Ok; [done|lia|].
  eapply Forall_impl; [exact Hlen|]. intros c Hc. simpl in Hc.
  apply lookup_lt_is_Some. lia.
Qed.

(** ** RoundController *)

Section RoundFacts.
Context {Rng : Type} (randbelow : nat → Rng → nat * Rng).
Implicit Types (balance lines bet delta : Z) (stdin rest : list string) (g : Rng).
Implicit Types (st : Session (Rng := Rng)).

Hypothesis randbelow_lt : ∀ (n : nat) g, (0 < n)%nat → ((randbelow n g).1 < n)%nat.

Lemma bet_loop_inv (gas : nat) balance lines stdin bet total_bet rest :
  bet_loop gas balance lines stdin = Ok (bet, total_bet, rest) →
  total_bet = bet * lines ∧ total_bet ≤ balance
  ∧ MIN_BET ≤ bet ≤ MAX_BET ∧ (length rest < length stdin)%nat.
Proof.
  revert stdin. induction gas as [|gas IH]; intros stdin; [done|].
  cbn [bet_loop].
  destruct (bet_amount stdin) as [[b stdin1]|e] eqn:Hb; [|done].
  rewrite bind_Ok. apply bet_amount_inv in Hb as [Hrange Hlen].
  destruct (Z.ltb_spec balance (b * lines)).
  - intros (? & ? & ? & ?)%IH. repeat split; lia.
  - intros [= <- <- <-]. repeat split; lia.
Qed.

(** Gas above the number of lines left is never used up: the loop gives
    the same outcome for any two such amounts. *)
Lemma bet_loop_gas (gas gas' : nat) balance lines stdin :
  (length stdin < gas)%nat → (length stdin < gas')%nat →
  bet_loop gas balance lines stdin = bet_loop gas' balance lines stdin.
Proof.
  revert gas' stdin. induction gas as [|gas IH]; intros gas' stdin Hg Hg'; [lia|].
  destruct gas' as [|gas']; [lia|]. cbn [bet_loop].
  destruct (bet_amount stdin) as [[b stdin1]|e] eqn:Hb; [|done].
  rewrite !bind_Ok. apply bet_amount_inv in Hb as [_ Hlen].
  destruct (balance <? b * lines); [|done]. apply IH; lia.
Qed.

(** What a returned round went through. *)
Lemma game_inv balance stdin g delta rest g' :
  game randbelow balance stdin g = Ok (delta, rest, g') →
  ∃ lines bet stdin1 slots winnings winning_lines,
    get_number_of_lines stdin = Ok (lines, stdin1)
    ∧ bet_loop (S (length stdin1)) balance lines stdin1 = Ok (bet, bet * lines, rest)
    ∧ get_slot_machine_spin randbelow ROWS COLS symbol_count g = Ok (slots, g')
    ∧ check_winnings slots lines bet symbol_values = Ok (winnings, winning_lines)
    ∧ delta = winnings - lines * bet.
Proof.
  unfold game.
  destruct (get_number_of_lines stdin) as [[lines stdin1]|e]; [|done].
  rewrite bind_Ok.
  destruct (bet_loop _ balance lines stdin1) as [[[bet total_bet] stdin2]|e] eqn:Hbet;
    [|done].
  rewrite bind_Ok.
  destruct (get_slot_machine_spin _ _ _ _ g) as [[slots g1]|e]; [|done].
  rewrite bind_Ok. destruct (print_slot_machine slots) as [[]|e]; [|done].
  rewrite bind_Ok.
  destruct (check_winnings slots lines bet symbol_values) as [[w wl]|e] eqn:Hcw; [|done].
  rewrite bind_Ok. intros [= <- <- <-].
  pose proof (bet_loop_inv _ _ _ _ _ _ _ Hbet) as (-> & _).
  exists lines, bet, stdin1, slots, w, wl. repeat split; [done..|lia].
Qed.

(** The round never loses more than the balance. *)
Lemma game_delta_bound balance stdin g delta rest g' :
  game randbelow balance stdin g = Ok (delta, rest, g') → - balance ≤ delta.
Proof.
  intros (lines & bet & stdin1 & slots & w & wl & Hl & Hb & _ & Hcw & ->)%game_inv.
  apply bet_loop_inv in Hb as (_ & Hle & Hbet & _).
  apply check_winnings_nonneg in Hcw.
  - lia.
  - intros s v Hv%symbol_values_lookup. lia.
  - unfold MIN_BET in Hbet. lia.
Qed.

(** The grid of the configured spin: 3 columns of 3 symbols of the pool. *)
Lemma configured_spin_ok g :
  ∃ slots g',
    get_slot_machine_spin randbelow ROWS COLS symbol_count g = Ok (slots, g')
    ∧ slots ≠ []
    ∧ Forall (λ c : list string, length c = 3%nat ∧ ∀ s, s ∈ c → is_Some (symbol_values !! s))
             slots.
Proof.
  destruct (get_slot_machine_spin_ok randbelow randbelow_lt ROWS COLS symbol_count g)
    as [[slots g'] Hspin].
  { rewrite build_pool_pool_of. vm_compute. lia. }
  exists slots, g'. split; [done|].
  apply get_slot_machine_spin_inv in Hspin as [Hlen Hall].
  split; [by destruct slots|].
  eapply Forall_impl; [exact Hall|]. intros c [Hc [r Hperm]]. split; [done|].
  intros s Hs. apply symbol_values_covers_pool. rewrite Hperm.
  apply elem_of_app. by left.
Qed.

(** An accepted round returns: the spin, the printing and the evaluation
    all succeed, and the result is the winnings less the total bet. *)
Lemma game_accepted balance stdin g lines stdin1 bet total_bet rest :
  get_number_of_lines stdin = Ok (lines, stdin1) →
  bet_loop (S (length stdin1)) balance lines stdin1 = Ok (bet, total_bet, rest) →
  ∃ slots g' winnings winning_lines,
    get_slot_machine_spin randbelow ROWS COLS symbol_count g = Ok (slots, g')
    ∧ check_winnings slots lines bet symbol_values = Ok (winnings, winning_lines)
    ∧ total_bet = lines * bet ∧ total_bet ≤ balance
    ∧ game randbelow balance stdin g = Ok (winnings - lines * bet, rest, g').
Proof.
  intros Hl Hb. unfold game. rewrite Hl, bind_Ok, Hb, bind_Ok.
  apply get_number_of_lines_inv in Hl as [Hlines _].
  apply bet_loop_inv in Hb as (-> & Hle & _ & _).
  destruct (configured_spin_ok g) as (slots & g' & Hspin & Hne & Hall).
  rewrite Hspin, bind_Ok.
  rewrite (print_slot_machine_ok slots 3), bind_Ok;
    [|done|by eapply Forall_impl; [exact Hall|]; intros ? []].
  destruct slots as [|c0 cs]; [done|].
  destruct (check_winnings_returns c0 cs lines bet symbol_values) as [[w wl] Hcw].
  { eapply Forall_impl; [exact Hall|]. intros c [Hc _]. simpl.
    unfold MAX_LINES in Hlines. lia. }
  { by apply Forall_cons in Hall as [[_ Hcov] _]. }
  rewrite Hcw, bind_Ok. exists (c0 :: cs), g', w, wl.
  repeat split; [done| lia | lia |]. do 3 f_equal. lia.
Qed.

(** C4.  In the bet loop of a round, a valid bet whose total
    [bet * lines] exceeds the balance is rejected: the loop goes on to the
    next line of input with the same balance and the same number of lines,
    so the round (its result, the input it leaves, the generator) is the
    one that would have been played had the rejected line never been
    typed, and so is the iteration of the session.  A valid bet whose
    total is at most the balance is accepted, and the round goes on to the
    spin with it.  With a balance of 50 and 3 lines, a bet of 20 is
    rejected and a bet of 10 is accepted. *)
Theorem bet_validation balance lines (l amount : string) bet rest g :
  lines_entry l lines →
  bet_entry amount bet →
  (balance < bet * lines →
     (∀ gas, bet_loop (S gas) balance lines (amount :: rest) =
             bet_loop gas balance lines rest)
     ∧ game randbelow balance (l :: amount :: rest) g =
       game randbelow balance (l :: rest) g
     ∧ (∀ answer : string,
          main_iter randbelow (mkSession balance (answer :: l :: amount :: rest) g) =
          main_iter randbelow (mkSession balance (answer :: l :: rest) g)))
  ∧ (bet * lines ≤ balance →
     (∀ gas, bet_loop (S gas) balance lines (amount :: rest) =
             Ok (bet, bet * lines, rest))
     ∧ game randbelow balance (l :: amount :: rest) g =
       ('(slots, g') ← get_slot_machine_spin randbelow ROWS COLS symbol_count g;
        _ ← print_slot_machine slots;
        '(winnings, winning_lines) ← check_winnings slots lines bet symbol_values;
        Ok (winnings - bet * lines, rest, g')))
  ∧ (∀ gas, bet_loop (S (S gas)) 50 3 ("20" :: "10" :: rest) = Ok (10, 30, rest)).
Proof.
  intros Hl Hbet. split; [|split].
  - intros Hgt.
    assert (∀ gas, bet_loop (S gas) balance lines (amount :: rest) =
                   bet_loop gas balance lines rest) as Hloop.
    { intros gas. cbn [bet_loop]. rewrite (bet_amount_entry amount bet), bind_Ok by done.
      destruct (Z.ltb_spec balance (bet * lines)); [done|lia]. }
    assert (game randbelow balance (l :: amount :: rest) g =
            game randbelow balance (l :: rest) g) as Hgame.
    { unfold game. rewrite !(get_number_of_lines_entry l lines), !bind_Ok by done.
      cbn [length]. by rewrite Hloop. }
    split; [done|]. split; [done|].
    intros answer. unfold main_iter. simpl. by rewrite Hgame.
  - intros Hle.
    assert (∀ gas, bet_loop (S gas) balance lines (amount :: rest) =
                   Ok (bet, bet * lines, rest)) as Hloop.
    { intros gas. cbn [bet_loop]. rewrite (bet_amount_entry amount bet), bind_Ok by done.
      destruct (Z.ltb_spec balance (bet * lines)); [lia|done]. }
    split; [done|]. unfold game.
    rewrite (get_number_of_lines_entry l lines), bind_Ok by done.
    by rewrite Hloop, bind_Ok.
  - intros gas. reflexivity.
Qed.

(** ** BankrollSession *)

Lemma session_step_balance st st' :
  session_step randbelow st st' → 0 ≤ balance st → 0 ≤ balance st'.
Proof.
  unfold session_step, main_iter.
  destruct (input (stdin st)) as [[answer stdin1]|e]; [|done].
  rewrite bind_Ok. destruct (decide _); [done|].
  destruct (game randbelow (balance st) stdin1 (rng st)) as [[[delta stdin2] g']|e] eqn:Hg;
    [|done].
  rewrite bind_Ok. intros [= <-] Hb. cbn [balance].
  apply game_delta_bound in Hg. lia.
Qed.

Lemma session_run_balance st st' :
  rtc (session_step randbelow) st st' → 0 ≤ balance st → 0 ≤ balance st'.
Proof.
  induction 1 as [st|st1 st2 st3 Hstep _ IH]; [done|].
  intros Hb. apply IH. by eapply session_step_balance.
Qed.

(** C2.  Starting from the deposit, which is positive, the balance is
    never negative after any number of completed iterations of the
    session loop, whatever is typed and whatever the generator draws; and
    every round that returns, from any balance, returns a net change of at
    least minus that balance. *)
Theorem balance_never_negative stdin0 g0 deposited stdin1 st :
  deposit stdin0 = Ok (deposited, stdin1) →
  rtc (session_step randbelow) (mkSession deposited stdin1 g0) st →
  0 < deposited
  ∧ 0 ≤ balance st
  ∧ (∀ stdin delta rest g',
       game randbelow (balance st) stdin (rng st) = Ok (delta, rest, g') →
       - balance st ≤ delta ∧ 0 ≤ balance st + delta).
Proof.
  intros [Hpos _]%deposit_inv Hrun.
  assert (0 ≤ balance st) as Hst.
  { apply (session_run_balance _ _ Hrun). simpl. lia. }
  split; [done|]. split; [done|].
  intros stdin delta rest g' Hg%game_delta_bound. lia.
Qed.

(** Every completed iteration reads at least one line. *)
Lemma session_step_stdin st st' :
  session_step randbelow st st' → (length (stdin st') < length (stdin st))%nat.
Proof.
  unfold session_step, main_iter.
  destruct (stdin st) as [|answer stdin1]; [done|]. cbn [input].
  rewrite bind_Ok. destruct (decide _); [done|].
  destruct (game randbelow (balance st) stdin1 (rng st)) as [[[delta stdin2] g']|e] eqn:Hg;
    [|done].
  rewrite bind_Ok. intros [= <-]. cbn [stdin length].
  apply game_inv in Hg as (lines & bet & stdin3 & _ & _ & _ & Hl & Hb & _).
  apply get_number_of_lines_inv in Hl as [_ Hl].
  apply bet_loop_inv in Hb as (_ & _ & _ & Hb). lia.
Qed.

(** The session loop, too, never uses up gas above the number of lines
    left. *)
Lemma main_loop_gas (gas gas' : nat) st :
  (length (stdin st) < gas)%nat → (length (stdin st) < gas')%nat →
  main_loop randbelow gas st = main_loop randbelow gas' st.
Proof.
  revert gas' st. induction gas as [|gas IH]; intros gas' st Hg Hg'; [lia|].
  destruct gas' as [|gas']; [lia|]. cbn [main_loop].
  destruct (main_iter randbelow st) as [[st'|]|e] eqn:Hiter; [|done..].
  rewrite !bind_Ok. apply session_step_stdin in Hiter. apply IH; lia.
Qed.

Lemma main_loop_run (gas : nat) st (final : Z) :
  main_loop randbelow gas st = Ok final →
  ∃ st', rtc (session_step randbelow) st st'
         ∧ main_iter randbelow st' = Ok None ∧ final = balance st'.
Proof.
  revert st. induction gas as [|gas IH]; intros st; [done|]. cbn [main_loop].
  destruct (main_iter randbelow st) as [[st1|]|e] eqn:Hiter; [| |done].
  - rewrite bind_Ok. intros (st' & Hrun & Hq & ->)%IH.
    exists st'. split; [|done]. by eapply rtc_l.
  - rewrite bind_Ok. intros [= <-]. by exists st.
Qed.

(** The balance the player leaves with is not negative. *)
Lemma main_final_balance stdin0 g0 (final : Z) :
  main randbelow stdin0 g0 = Ok final → 0 ≤ final.
Proof.
  unfold main. destruct (deposit stdin0) as [[deposited stdin1]|e] eqn:Hd; [|done].
  rewrite bind_Ok. intros (st' & Hrun & _ & ->)%main_loop_run.
  apply deposit_inv in Hd as [Hpos _].
  apply (session_run_balance _ _ Hrun). simpl. lia.
Qed.

End RoundFacts.

(** C7.  A round in which a number of lines was read and a bet was
    accepted returns: its value is the winnings that [check_winnings]
    finds on the grid the spin produced, less [lines * bet], the total
    bet, which is at most the balance.  The value can be negative: with a
    balance of 50, 3 lines at 10 each and the generator started at 42, it
    is -30. *)
Theorem game_net_delta :
  (∀ (Rng : Type) (randbelow : nat → Rng → nat * Rng),
     (∀ (n : nat) g, (0 < n)%nat → ((randbelow n g).1 < n)%nat) →
     ∀ balance stdin g lines stdin1 bet total_bet rest,
       get_number_of_lines stdin = Ok (lines, stdin1) →
       bet_loop (S (length stdin1)) balance lines stdin1 = Ok (bet, total_bet, rest) →
       ∃ slots g' winnings winning_lines,
         get_slot_machine_spin randbelow ROWS COLS symbol_count g = Ok (slots, g')
         ∧ check_winnings slots lines bet symbol_values = Ok (winnings, winning_lines)
         ∧ total_bet = lines * bet ∧ total_bet ≤ balance
         ∧ game randbelow balance stdin g = Ok (winnings - lines * bet, rest, g'))
  ∧ game lcg_randbelow 50 ["3"; "10"] 42%N = Ok (-30, [], 1314989459%N).
Proof.
  split.
  - intros Rng randbelow Hlt balance stdin g lines stdin1 bet total_bet rest.
    by apply game_accepted.
  - by vm_compute.
Qed.

(** * The program on concrete inputs *)

Lemma lcg_randbelow_lt (n : nat) (g : N) :
  (0 < n)%nat → ((lcg_randbelow n g).1 < n)%nat.
Proof.
  intros Hn. unfold lcg_randbelow. cbn [fst].
  pose proof (N.mod_upper_bound g (N.of_nat n)). lia.
Qed.

Lemma first_randbelow_lt (n : nat) (g : unit) :
  (0 < n)%nat → ((first_randbelow n g).1 < n)%nat.
Proof. done. Qed.

Lemma symbol_count_wf : table_wf symbol_count.
Proof.
  split.
  - by apply (bool_decide_unpack _).
  - repeat constructor.
Qed.

Lemma symbol_values_config (s : string) :
  s ∈ ["A"; "B"; "C"; "D"] → is_Some (symbol_values !! s).
Proof.
  intros Hs.
  repeat (apply elem_of_cons in Hs as [->|Hs]; [by eexists|]).
  by apply elem_of_nil in Hs.
Qed.

Lemma fair_grid_covered (c : list string) (s : string) :
  c ∈ fair_grid → s ∈ c → is_Some (symbol_values !! s).
Proof.
  intros Hc Hs. apply symbol_values_config.
  unfold fair_grid in Hc.
  repeat (apply elem_of_cons in Hc as [->|Hc];
          [repeat (apply elem_of_cons in Hs as [->|Hs]; [set_solver|]);
           by apply elem_of_nil in Hs|]).
  by apply elem_of_nil in Hc.
Qed.

(** The example of the specification: row 0 wins, rows 1 and 2 do not. *)
Example example_grid_rows :
  row_wins example_grid 0 = true
  ∧ row_wins example_grid 1 = false
  ∧ row_wins example_grid 2 = false
  ∧ check_winnings example_grid 3 10 symbol_values = Ok (50, [1]).
Proof. by vm_compute. Qed.

(** Deposit 100, one line at 10, a grid whose row 0 is [A, A, A]:
    winnings 50, net change +40, balance 140. *)
Example session_winning_round :
  get_slot_machine_spin first_randbelow ROWS COLS symbol_count () =
    Ok ([["A"; "A"; "B"]; ["A"; "A"; "B"]; ["A"; "A"; "B"]], ())
  ∧ game first_randbelow 100 ["1"; "10"] () = Ok (40, [], ())
  ∧ main first_randbelow ["100"; enter; "1"; "10"; "q"] () = Ok 140.
Proof. by vm_compute. Qed.

(** Deposit 20, three lines at 100: rejected, and the round waits for
    another bet without spinning. *)
Example session_unaffordable_bet :
  bet_loop 2 20 3 ["100"] = Raise EOFError
  ∧ game lcg_randbelow 20 ["3"; "100"; "5"] 42%N = game lcg_randbelow 20 ["3"; "5"] 42%N.
Proof. by vm_compute. Qed.

(** A line of superscript digits passes [isdigit] and is refused by
    [int]. *)
Example superscript_digits :
  isdigit (String (Ascii.ascii_of_N 178) EmptyString) = true
  ∧ deposit [String (Ascii.ascii_of_N 178) EmptyString; "10"] = Raise ValueError.
Proof. by vm_compute. Qed.

(** ** The theorems at concrete inputs *)

Lemma check_winnings_correct_witness :
  check_winnings fair_grid 3 10 symbol_values =
    Ok (spec_winnings fair_grid 3 10 symbol_values, spec_winning_lines fair_grid 3)
  ∧ (∀ n, n ∈ spec_winning_lines fair_grid 3 ↔
          ∃ i, n = i + 1 ∧ 0 ≤ i < 3 ∧ row_agrees fair_grid i)
  ∧ StronglySorted Z.lt (spec_winning_lines fair_grid 3).
Proof.
  apply (check_winnings_correct fair_grid 3 10 symbol_values).
  - discriminate.
  - lia.
  - repeat constructor; simpl; lia.
  - apply fair_grid_covered.
Defined.

Example fair_grid_result :
  check_winnings fair_grid 3 10 symbol_values = Ok (50, [1])
  ∧ spec_winnings fair_grid 3 10 symbol_values = 50
  ∧ spec_winning_lines fair_grid 3 = [1].
Proof. by vm_compute. Qed.

Lemma check_winnings_ignores_rows_beyond_lines_witness :
  take (Z.to_nat 1) <$> example_grid = take (Z.to_nat 1) <$> fair_grid
  ∧ check_winnings example_grid 1 10 symbol_values =
    check_winnings fair_grid 1 10 symbol_values.
Proof.
  split; [reflexivity|].
  apply (check_winnings_ignores_rows_beyond_lines example_grid fair_grid 1 10 symbol_values).
  reflexivity.
Defined.

Lemma check_winnings_single_column_witness :
  check_winnings [["A"; "B"; "C"]] 2 10 symbol_values =
    Ok (10 * sumZ (row_multiplier [["A"; "B"; "C"]] symbol_values <$> range 2), seqZ 1 2).
Proof.
  apply (check_winnings_single_column ["A"; "B"; "C"] 2 10 symbol_values).
  - lia.
  - simpl. lia.
  - intros s Hs.
    repeat (apply elem_of_cons in Hs as [->|Hs]; [by eexists|]).
    by apply elem_of_nil in Hs.
Defined.

Example single_column_result :
  check_winnings [["A"; "B"; "C"]] 2 10 symbol_values = Ok (90, [1; 2]).
Proof. by vm_compute. Qed.

(** C10 as first stated fails: the last column of [ragged_grid] is
    shorter than the 2 lines bet on, and the call returns; and the grid
    [[["E"]]] meets the precondition on the columns, and the call raises
    [KeyError]. *)
Lemma check_winnings_ragged_counterexample :
  (∃ c, c ∈ ragged_grid ∧ Z.of_nat (length c) < 2)
  ∧ check_winnings ragged_grid 2 1 symbol_values = Ok (0, [])
  ∧ Forall (λ c : list string, 1 ≤ Z.of_nat (length c)) [["E"]]
  ∧ check_winnings [["E"]] 1 1 symbol_values = Raise KeyError.
Proof.
  split; [|split; [|split]].
  - exists ["A"]. split; [set_solver|simpl; lia].
  - by vm_compute.
  - repeat constructor. simpl. lia.
  - by vm_compute.
Qed.

Lemma check_winnings_partiality_witness :
  1 ≤ 2
  ∧ (ragged_grid = [] →
       check_winnings ragged_grid 2 1 symbol_values = Raise IndexError)
  ∧ (∀ c0 cs, ragged_grid = c0 :: cs → Z.of_nat (length c0) < 2 →
       is_Raise (check_winnings ragged_grid 2 1 symbol_values))
  ∧ (∀ c0 cs, ragged_grid = c0 :: cs →
       (∀ s, s ∈ c0 → is_Some (symbol_values !! s)) →
       (is_Raise (check_winnings ragged_grid 2 1 symbol_values) ↔
        ∃ line, 0 ≤ line < 2 ∧ reads_missing_row ragged_grid line)
       ∧ (∀ e, check_winnings ragged_grid 2 1 symbol_values = Raise e → e = IndexError)
       ∧ (Forall (λ c : list string, 2 ≤ Z.of_nat (length c)) ragged_grid →
          is_Ok (check_winnings ragged_grid 2 1 symbol_values))).
Proof.
  split; [lia|].
  apply (check_winnings_partiality ragged_grid 2 1 symbol_values). lia.
Defined.

(** A short column raises when it is read: first, or behind columns that
    agree with the first at the missing row. *)
Example short_column_read_result :
  check_winnings [["A"]] 2 1 symbol_values = Raise IndexError
  ∧ check_winnings [["A"; "A"]; ["A"]] 2 1 symbol_values = Raise IndexError
  ∧ check_winnings ([] : list (list string)) 1 1 symbol_values = Raise IndexError.
Proof. by vm_compute. Qed.

Lemma get_slot_machine_spin_shape_witness :
  ∃ grid g',
    get_slot_machine_spin lcg_randbelow 3 3 symbol_count 42%N = Ok (grid, g')
    ∧ Z.of_nat (length grid) = 3
    ∧ Forall (λ column,
        Z.of_nat (length column) = 3
        ∧ (∀ s w, (s, w) ∈ symbol_count → Z.of_nat (count s column) ≤ w)
        ∧ (∀ s, s ∉ symbol_count.*1 → s ∉ column)) grid.
Proof.
  apply (get_slot_machine_spin_shape lcg_randbelow lcg_randbelow_lt 3 3 symbol_count 42%N).
  - apply symbol_count_wf.
  - simpl. lia.
  - lia.
Defined.

Example spin_result :
  get_slot_machine_spin lcg_randbelow 3 3 symbol_count 42%N =
    Ok ([["B"; "C"; "C"]; ["D"; "D"; "A"]; ["D"; "C"; "C"]], 1314989459%N).
Proof. by vm_compute. Qed.

Lemma build_pool_counts_witness :
  (∀ s w, (s, w) ∈ symbol_count → Z.of_nat (count s (build_pool symbol_count)) = w)
  ∧ (∀ s, s ∉ symbol_count.*1 → count s (build_pool symbol_count) = 0%nat)
  ∧ Z.of_nat (length (build_pool symbol_count)) = sumZ (symbol_count.*2)
  ∧ (∀ (Rng : Type) (randbelow : nat → Rng → nat * Rng) rows cols g,
       get_slot_machine_spin randbelow rows cols symbol_count g =
       for_each (draw_column randbelow rows (build_pool symbol_count))
                (range cols) ([], g)).
Proof. apply (build_pool_counts symbol_count symbol_count_wf). Defined.

Example pool_result :
  build_pool symbol_count =
    ["A"; "A"; "B"; "B"; "B"; "B"; "C"; "C"; "C"; "C"; "C"; "C";
     "D"; "D"; "D"; "D"; "D"; "D"; "D"; "D"]
  ∧ sumZ (symbol_count.*2) = 20.
Proof. by vm_compute. Qed.

(** C8 as first stated fails: [malformed_table] gives "A" the weight 0,
    its pool is built, and a spin on it returns a grid. *)
Lemma build_pool_malformed_counterexample :
  (∃ s w, (s, w) ∈ malformed_table ∧ w ≤ 0)
  ∧ build_pool malformed_table = ["B"; "B"; "B"]
  ∧ get_slot_machine_spin lcg_randbelow 3 3 malformed_table 42%N =
      Ok ([["B"; "B"; "B"]; ["B"; "B"; "B"]; ["B"; "B"; "B"]], 1314989459%N).
Proof.
  split; [|by vm_compute].
  exists "A", 0. split; [set_solver|lia].
Qed.

Lemma build_pool_total_witness :
  NoDup (malformed_table.*1)
  ∧ (∀ s w, (s, w) ∈ malformed_table →
       count s (build_pool malformed_table) = Z.to_nat w)
  ∧ (∀ s w, (s, w) ∈ malformed_table → w ≤ 0 → s ∉ build_pool malformed_table)
  ∧ (∀ (Rng : Type) (randbelow : nat → Rng → nat * Rng) cols g,
       get_slot_machine_spin randbelow 0 cols malformed_table g =
       Ok (replicate (Z.to_nat cols) [], g)).
Proof.
  assert (NoDup (malformed_table.*1)) as Hnd by (by apply (bool_decide_unpack _)).
  split; [exact Hnd|]. apply (build_pool_total malformed_table Hnd).
Defined.

Lemma bet_validation_witness :
  lines_entry "3" 3 ∧ bet_entry "20" 20 ∧ bet_entry "10" 10
  ∧ (∀ gas, bet_loop (S gas) 50 3 ["20"; "10"] = bet_loop gas 50 3 ["10"])
  ∧ game lcg_randbelow 50 ["3"; "20"; "10"] 42%N = game lcg_randbelow 50 ["3"; "10"] 42%N
  ∧ (∀ gas, bet_loop (S gas) 50 3 ["10"] = Ok (10, 10 * 3, [])).
Proof.
  assert (lines_entry "3" 3) as Hl by (by vm_compute).
  assert (bet_entry "20" 20) as H20 by (by vm_compute).
  assert (bet_entry "10" 10) as H10 by (by vm_compute).
  split; [exact Hl|]. split; [exact H20|]. split; [exact H10|].
  destruct (bet_validation lcg_randbelow 50 3 "3" "20" 20 ["10"] 42%N Hl H20)
    as (Hrej & _ & _).
  destruct (bet_validation lcg_randbelow 50 3 "3" "10" 10 [] 42%N Hl H10)
    as (_ & Hacc & _).
  destruct Hrej as (Hloop & Hgame & _); [lia|].
  destruct Hacc as (Hok & _); [lia|].
  split; [exact Hloop|]. split; [exact Hgame|exact Hok].
Defined.

Lemma game_net_delta_witness :
  ∃ slots g' winnings winning_lines,
    get_slot_machine_spin lcg_randbelow ROWS COLS symbol_count 42%N = Ok (slots, g')
    ∧ check_winnings slots 3 10 symbol_values = Ok (winnings, winning_lines)
    ∧ 30 = 3 * 10 ∧ 30 ≤ 50
    ∧ game lcg_randbelow 50 ["3"; "10"] 42%N = Ok (winnings - 3 * 10, [], g').
Proof.
  apply (proj1 game_net_delta N lcg_randbelow lcg_randbelow_lt
           50 ["3"; "10"] 42%N 3 ["10"] 10 30 []).
  - reflexivity.
  - reflexivity.
Defined.

Lemma balance_never_negative_witness :
  deposit ["100"; enter; "1"; "10"] = Ok (100, [enter; "1"; "10"])
  ∧ rtc (session_step lcg_randbelow)
        (mkSession 100 [enter; "1"; "10"] 42%N) (mkSession 90 [] 1314989459%N)
  ∧ 0 < 100
  ∧ 0 ≤ balance (mkSession 90 [] 1314989459%N)
  ∧ (∀ stdin delta rest g',
       game lcg_randbelow (balance (mkSession 90 [] 1314989459%N)) stdin
            (rng (mkSession 90 [] 1314989459%N)) = Ok (delta, rest, g') →
       - balance (mkSession 90 [] 1314989459%N) ≤ delta
       ∧ 0 ≤ balance (mkSession 90 [] 1314989459%N) + delta).
Proof.
  assert (rtc (session_step lcg_randbelow)
            (mkSession 100 [enter; "1"; "10"] 42%N) (mkSession 90 [] 1314989459%N)) as Hrun.
  { eapply rtc_l; [|apply rtc_refl]. by vm_compute. }
  split; [reflexivity|]. split; [exact Hrun|].
  apply (balance_never_negative lcg_randbelow ["100"; enter; "1"; "10"] 42%N
           100 [enter; "1"; "10"] (mkSession 90 [] 1314989459%N)).
  - reflexivity.
  - exact Hrun.
Defined.

(** * Further properties *)

(** ** The validation loops *)

Lemma int_Raise (s : string) (e : Exn) : int s = Raise e → e = ValueError.
Proof. unfold int. destruct (forallb _ _); congruence. Qed.

Lemma deposit_read_entry (stdin : list string) :
  deposit stdin = read_entry amount_ok stdin.
Proof.
  induction stdin as [|line rest IH]; [done|]. cbn [deposit read_entry].
  rewrite IH. reflexivity.
Qed.

Lemma get_number_of_lines_read_entry (stdin : list string) :
  get_number_of_lines stdin = read_entry lines_ok stdin.
Proof.
  induction stdin as [|line rest IH]; [done|].
  cbn [get_number_of_lines read_entry]. rewrite IH. reflexivity.
Qed.

Lemma bet_amount_read_entry (stdin : list string) :
  bet_amount stdin = read_entry bet_ok stdin.
Proof.
  induction stdin as [|line rest IH]; [done|].
  cbn [bet_amount read_entry]. rewrite IH. reflexivity.
Qed.

Lemma read_entry_skip (ok : Z → bool) (line : string) (rest : list string) :
  line_skipped ok line → read_entry ok (line :: rest) = read_entry ok rest.
Proof.
  intros [Hd|(n & Hi & Hok)]; cbn [read_entry].
  - by rewrite Hd.
  - destruct (isdigit line); [|done]. by rewrite Hi, Hok.
Qed.

Lemma read_entry_Ok_iff (ok : Z → bool) (stdin rest : list string) (n : Z) :
  read_entry ok stdin = Ok (n, rest) ↔
  ∃ skipped line, stdin = skipped ++ line :: rest
    ∧ Forall (line_skipped ok) skipped ∧ line_accepted ok line n.
Proof.
  split.
  - induction stdin as [|line stdin IH]; [done|]. cbn [read_entry].
    destruct (isdigit line) eqn:Hd.
    + destruct (int line) as [m|e] eqn:Hi; [|done].
      destruct (ok m) eqn:Hok.
      * intros [= <- <-]. by exists [], line.
      * intros (skipped & l & -> & Hsk & Hacc)%IH.
        exists (line :: skipped), l. split; [done|]. split; [|done].
        constructor; [|done]. right. by exists m.
    + intros (skipped & l & -> & Hsk & Hacc)%IH.
      exists (line :: skipped), l. split; [done|]. split; [|done].
      constructor; [by left|done].
  - intros (skipped & line & -> & Hsk & Hd & Hi & Hok).
    induction Hsk as [|l skipped Hl _ IH].
    + cbn [app read_entry]. by rewrite Hd, Hi, Hok.
    + rewrite <- app_comm_cons, read_entry_skip by done. exact IH.
Qed.



Lemma read_entry_Raise (ok : Z → bool) (stdin : list string) (e : Exn) :
  read_entry ok stdin = Raise e → e = EOFError ∨ e = ValueError.
Proof.
  induction stdin as [|line stdin IH]; [intros [= <-]; by left|].
  cbn [read_entry]. destruct (isdigit line); [|done].
  destruct (int line) as [m|e'] eqn:Hi.
  - by destruct (ok m).
  - intros [= <-]. right. by eapply int_Raise.
Qed.




(** ** Lines of digits *)





(** ** PayoutEvaluator, further *)

Section PayoutEvaluatorMore.
Context `{Countable Symbol}.
Implicit Types (columns : list (list Symbol)) (values : gmap Symbol Z).
Implicit Types (symbol : Symbol) (lines bet line : Z).

Lemma check_line_rect c0 cs bet values line symbol (w : Z) (wl : list Z) :
  0 ≤ line → has_row line (c0 :: cs) →
  c0 !! Z.to_nat line = Some symbol →
  check_line (c0 :: cs) bet values (w, wl) line =
    if row_wins (c0 :: cs) line
    then value ← dict_getitem values symbol;
         Ok (w + value * bet, wl ++ [line + 1])
    else Ok (w, wl).
Proof.
  intros Hline Hrow Hs. unfold check_line.
  rewrite (list_getitem_Some (c0 :: cs) 0 c0), bind_Ok by done.
  rewrite (list_getitem_Some c0 line symbol), bind_Ok by done.
  rewrite columns_match_total, bind_Ok by done.
  unfold row_wins. cbn [hd]. by rewrite Hs.
Qed.

Lemma check_line_rect_Raise_iff c0 cs lines bet values acc line :
  Forall (λ c : list Symbol, lines ≤ Z.of_nat (length c)) (c0 :: cs) →
  0 ≤ line < lines →
  is_Raise (check_line (c0 :: cs) bet values acc line) ↔
  unpaid_win (c0 :: cs) values line.
Proof.
  intros Hlen Hline. destruct acc as [w wl].
  assert (has_row line (c0 :: cs)) as Hrow by (by eapply has_row_of_lengths).
  pose proof Hrow as Hrow0. apply Forall_cons in Hrow0 as [[s Hs] _].
  rewrite (check_line_rect _ _ _ _ _ s) by (done || lia).
  unfold unpaid_win. cbn [hd]. rewrite Hs.
  destruct (row_wins (c0 :: cs) line).
  - unfold dict_getitem. destruct (values !! s) as [v|] eqn:Hv.
    + rewrite bind_Ok. split; [by intros [e ?]|].
      intros (_ & s' & [= <-] & Hn). congruence.
    + rewrite bind_Raise. split; [|by eexists]. intros _. split; [done|].
      by exists s.
  - split; [by intros [e ?]|]. by intros [? _].
Qed.

Lemma check_line_rect_Raise c0 cs lines bet values acc line e :
  Forall (λ c : list Symbol, lines ≤ Z.of_nat (length c)) (c0 :: cs) →
  0 ≤ line < lines →
  check_line (c0 :: cs) bet values acc line = Raise e → e = KeyError.
Proof.
  intros Hlen Hline. destruct acc as [w wl].
  assert (has_row line (c0 :: cs)) as Hrow by (by eapply has_row_of_lengths).
  pose proof Hrow as Hrow0. apply Forall_cons in Hrow0 as [[s Hs] _].
  rewrite (check_line_rect _ _ _ _ _ s) by (done || lia).
  destruct (row_wins (c0 :: cs) line); [|done].
  unfold dict_getitem. destruct (values !! s); [done|]. by intros [= <-].
Qed.

Lemma check_lines_fold_paid c0 cs lines bet values (ls : list Z) (w : Z) (wl : list Z) :
  Forall (λ c : list Symbol, lines ≤ Z.of_nat (length c)) (c0 :: cs) →
  Forall (λ i, 0 ≤ i < lines ∧ ¬ unpaid_win (c0 :: cs) values i) ls →
  for_each (check_line (c0 :: cs) bet values) ls (w, wl) =
    Ok (w + sumZ ((λ i, row_multiplier (c0 :: cs) values i * bet)
                   <$> List.filter (row_wins (c0 :: cs)) ls),
        wl ++ ((λ i, i + 1) <$> List.filter (row_wins (c0 :: cs)) ls)).
Proof.
  intros Hlen Hls. revert w wl.
  induction Hls as [|i ls [Hi Hpaid] _ IH]; intros w wl.
  { simpl. f_equal. f_equal; [unfold sumZ; simpl; lia|by rewrite app_nil_r]. }
  assert (has_row i (c0 :: cs)) as Hrow by (by eapply has_row_of_lengths).
  pose proof Hrow as Hrow0. apply Forall_cons in Hrow0 as [[s Hs] _].
  rewrite for_each_cons, (check_line_rect _ _ _ _ _ s) by (done || lia).
  cbn [List.filter].
  destruct (row_wins (c0 :: cs) i) eqn:Hwin; [|by rewrite bind_Ok, IH].
  unfold dict_getitem. destruct (values !! s) as [v|] eqn:Hv.
  - rewrite !bind_Ok, IH, !fmap_cons. unfold row_multiplier at 2. cbn [hd].
    rewrite Hs. cbn [mbind option_bind]. rewrite Hv. cbn [default].
    f_equal. f_equal; [unfold sumZ; simpl; lia|]. by rewrite <- app_assoc.
  - destruct Hpaid. split; [done|]. by exists s.
Qed.

(** X5.  On a grid whose columns all have at least [lines] rows, the only
    exception [check_winnings] can raise is [KeyError], and it raises
    exactly when some row below [lines] is uniform and its symbol has no
    multiplier; when there is no such row it returns the winnings and
    winning lines of the evaluation rule.  A symbol without a multiplier
    on a row that is not uniform is never looked up. *)
Theorem check_winnings_rectangular c0 cs lines bet values :
  Forall (λ c : list Symbol, lines ≤ Z.of_nat (length c)) (c0 :: cs) →
  (is_Raise (check_winnings (c0 :: cs) lines bet values) ↔
   ∃ line, 0 ≤ line < lines ∧ unpaid_win (c0 :: cs) values line)
  ∧ (∀ e, check_winnings (c0 :: cs) lines bet values = Raise e → e = KeyError)
  ∧ ((∀ line, 0 ≤ line < lines → ¬ unpaid_win (c0 :: cs) values line) →
     check_winnings (c0 :: cs) lines bet values =
       Ok (spec_winnings (c0 :: cs) lines bet values,
           spec_winning_lines (c0 :: cs) lines)).
Proof.
  intros Hlen. unfold check_winnings. split; [|split].
  - rewrite (for_each_Raise_iff _ (unpaid_win (c0 :: cs) values)).
    + by setoid_rewrite elem_of_range.
    + intros acc line Hl%elem_of_range.
      by apply (check_line_rect_Raise_iff c0 cs lines).
  - intros e (acc & line & Hl%elem_of_range & Hr)%for_each_Raise.
    by eapply (check_line_rect_Raise c0 cs lines).
  - intros Hpaid. rewrite (check_lines_fold_paid c0 cs lines); [done|done|].
    apply Forall_forall. intros i Hi%elem_of_range. split; [done|by apply Hpaid].
Qed.

End PayoutEvaluatorMore.

Lemma check_winnings_rectangular_witness :
  Forall (λ c : list string, 3 ≤ Z.of_nat (length c)) example_grid
  ∧ (is_Raise (check_winnings example_grid 3 10 symbol_values) ↔
     ∃ line, 0 ≤ line < 3 ∧ unpaid_win example_grid symbol_values line)
  ∧ (∀ e, check_winnings example_grid 3 10 symbol_values = Raise e → e = KeyError)
  ∧ ((∀ line, 0 ≤ line < 3 → ¬ unpaid_win example_grid symbol_values line) →
     check_winnings example_grid 3 10 symbol_values =
       Ok (spec_winnings example_grid 3 10 symbol_values,
           spec_winning_lines example_grid 3)).
Proof.
  assert (Forall (λ c : list string, 3 ≤ Z.of_nat (length c)) example_grid) as Hlen.
  { repeat constructor; simpl; lia. }
  split; [exact Hlen|].
  apply (check_winnings_rectangular ["A"; "B"; "C"]
           [["A"; "D"; "E"]; ["A"; "F"; "G"]] 3 10 symbol_values Hlen).
Defined.

Section PayoutEvaluatorOrder.
Context `{Countable Symbol}.
Implicit Types (columns : list (list Symbol)) (values : gmap Symbol Z).
Implicit Types (symbol : Symbol) (lines bet line : Z).

Lemma row_agrees_perm columns columns' line :
  columns ≡ₚ columns' → row_agrees columns line → row_agrees columns' line.
Proof.
  intros Hp Hag c1 c2 H1 H2. apply Hag; by rewrite Hp.
Qed.

Lemma row_wins_perm columns columns' line :
  columns ≡ₚ columns' → row_wins columns line = row_wins columns' line.
Proof.
  intros Hp. apply eq_true_iff_eq. rewrite !row_wins_agrees.
  split; apply row_agrees_perm; done.
Qed.

Lemma row_multiplier_perm columns columns' values line :
  columns ≡ₚ columns' → columns ≠ [] → row_wins columns line = true →
  row_multiplier columns values line = row_multiplier columns' values line.
Proof.
  intros Hp Hne Hw%row_wins_agrees. unfold row_multiplier.
  destruct columns as [|c0 cs]; [done|].
  destruct columns' as [|c0' cs']; [by apply Permutation_nil_r in Hp|].
  cbn [hd]. rewrite (Hw c0 c0'); [done|left|]. rewrite Hp. left.
Qed.

(** X6.  The order of the columns does not matter: on a grid of at least
    one column, every column at least [lines] long and every symbol in the
    multiplier table, [check_winnings] returns the same winnings and the
    same winning lines for any rearrangement of the columns. *)
Theorem check_winnings_column_order columns columns' lines bet values :
  columns ≡ₚ columns' →
  columns ≠ [] →
  Forall (λ c : list Symbol, lines ≤ Z.of_nat (length c)) columns →
  (∀ c s, c ∈ columns → s ∈ c → is_Some (values !! s)) →
  check_winnings columns lines bet values =
  check_winnings columns' lines bet values
  ∧ is_Ok (check_winnings columns lines bet values).
Proof.
  intros Hp Hne Hlen Hcov.
  assert (Forall (λ i, 0 ≤ i < lines) (range lines)) as Hrange.
  { apply Forall_forall. intros i. by rewrite elem_of_range. }
  assert (columns' ≠ []) as Hne'.
  { intros ->. by apply Permutation_nil_r in Hp. }
  assert (Forall (λ c : list Symbol, lines ≤ Z.of_nat (length c)) columns') as Hlen'.
  { by rewrite <- Hp. }
  assert (∀ c s, c ∈ columns' → s ∈ c → is_Some (values !! s)) as Hcov'.
  { intros c s Hc. apply Hcov. by rewrite Hp. }
  destruct columns as [|c0 cs]; [done|]. destruct columns' as [|c0' cs']; [done|].
  unfold check_winnings.
  rewrite (check_lines_fold c0 cs lines), (check_lines_fold c0' cs' lines);
    [|done|intros s; apply (Hcov' c0'); left|done
     |done|intros s; apply (Hcov c0); left|done].
  split; [|by eexists].
  assert (List.filter (row_wins (c0 :: cs)) (range lines) =
          List.filter (row_wins (c0' :: cs')) (range lines)) as Hf.
  { apply filter_ext. intros i. by apply row_wins_perm. }
  rewrite <- Hf. do 3 f_equal. unfold sumZ. f_equal.
  apply list_fmap_ext. intros _ i Hi%list_elem_of_lookup_2.
  apply list_elem_of_In, filter_In in Hi as [_ Hw].
  by rewrite (row_multiplier_perm (c0 :: cs) (c0' :: cs')).
Qed.

(** What the loop over rows [ls] adds to the winning lines, whatever the
    grid. *)
Lemma check_lines_added columns bet values (ls : list Z) (w w' : Z) (wl wl' : list Z) :
  for_each (check_line columns bet values) ls (w, wl) = Ok (w', wl') →
  ∃ added paid,
    wl' = wl ++ added
    ∧ added `sublist_of` ((λ i, i + 1) <$> ls)
    ∧ length paid = length added
    ∧ Forall (λ v, ∃ s, values !! s = Some v) paid
    ∧ w' = w + sumZ ((λ v, v * bet) <$> paid).
Proof.
  revert w wl. induction ls as [|i ls IH]; intros w wl.
  { intros [= <- <-]. exists [], []. rewrite app_nil_r.
    repeat split; [done|constructor|unfold sumZ; simpl; lia]. }
  rewrite for_each_cons. unfold check_line at 2.
  destruct (list_getitem columns 0) as [c0|e]; [|done]. rewrite bind_Ok.
  destruct (list_getitem c0 i) as [s|e]; [|done]. rewrite bind_Ok.
  destruct (columns_match s i columns) as [[]|e]; [| |done]; rewrite bind_Ok.
  - unfold dict_getitem. destruct (values !! s) as [v|] eqn:Hv; [|done].
    rewrite !bind_Ok. intros (added & paid & -> & Hsub & Hlen & Hpaid & ->)%IH.
    exists ((i + 1) :: added), (v :: paid). rewrite <- app_assoc.
    split; [done|]. split; [rewrite fmap_cons; by constructor|].
    split; [simpl; by rewrite Hlen|]. split; [constructor; [by exists s|done]|].
    rewrite fmap_cons. unfold sumZ. simpl. lia.
  - intros (added & paid & -> & Hsub & Hlen & Hpaid & ->)%IH.
    exists added, paid. split; [done|]. split; [|done].
    rewrite fmap_cons. by constructor.
Qed.

Lemma sumZ_bounds (lo hi bet : Z) (paid : list Z) :
  0 ≤ bet → Forall (λ v, lo ≤ v ≤ hi) paid →
  lo * bet * Z.of_nat (length paid) ≤ sumZ ((λ v, v * bet) <$> paid)
    ≤ hi * bet * Z.of_nat (length paid).
Proof.
  intros Hbet. induction 1 as [|v paid Hv _ IH]; [unfold sumZ; simpl; lia|].
  rewrite fmap_cons. unfold sumZ in *. cbn [foldr length]. nia.
Qed.


(** X8.  The bet changes nothing but the scale of the winnings: for
    any grid, [check_winnings] with a bet of [bet] raises what it raises
    with a bet of 1, and otherwise returns the same winning lines and
    [bet] times the winnings. *)
Theorem check_winnings_bet_scale columns lines bet values :
  check_winnings columns lines bet values =
  '(winnings, winning_lines) ← check_winnings columns lines 1 values;
  Ok (bet * winnings, winning_lines).
Proof.
  unfold check_winnings.
  assert (∀ (ls : list Z) (w : Z) (wl : list Z),
    for_each (check_line columns bet values) ls (bet * w, wl) =
    '(winnings, winning_lines) ← for_each (check_line columns 1 values) ls (w, wl);
    Ok (bet * winnings, winning_lines)) as Hloop.
  { induction ls as [|i ls IH]; intros w wl; [done|].
    rewrite !for_each_cons. unfold check_line at 2 4.
    destruct (list_getitem columns 0) as [c0|e]; [|done]. rewrite !bind_Ok.
    destruct (list_getitem c0 i) as [s|e]; [|done]. rewrite !bind_Ok.
    destruct (columns_match s i columns) as [[]|e]; [| |done]; rewrite !bind_Ok.
    - unfold dict_getitem. destruct (values !! s) as [v|]; [|done].
      rewrite !bind_Ok, <- IH. do 2 f_equal. lia.
    - apply IH. }
  rewrite <- Hloop. do 2 f_equal. lia.
Qed.

(** X9.  Betting on fewer lines: when [check_winnings] returns for
    [lines'] lines it returns for every smaller number [lines] of lines
    too, and the winning lines for [lines] are those among the winning
    lines for [lines'] that are at most [lines], which come first. *)
Theorem check_winnings_fewer_lines columns lines lines' bet values
    (winnings' : Z) (winning_lines' : list Z) :
  0 ≤ lines ≤ lines' →
  check_winnings columns lines' bet values = Ok (winnings', winning_lines') →
  ∃ winnings winning_lines later,
    check_winnings columns lines bet values = Ok (winnings, winning_lines)
    ∧ winning_lines' = winning_lines ++ later
    ∧ Forall (λ n, 1 ≤ n ≤ lines) winning_lines
    ∧ Forall (λ n, lines < n ≤ lines') later.
Proof.
  intros Hl. unfold check_winnings, range.
  replace lines' with (lines + (lines' - lines)) at 1 by lia.
  rewrite seqZ_app, for_each_app by lia.
  destruct (for_each _ (seqZ 0 lines) _) as [[w wl]|e] eqn:Hfirst; [|done].
  rewrite bind_Ok. intros (later & _ & -> & Hsub & _)%check_lines_added.
  apply check_lines_added in Hfirst as (added & _ & -> & Hsub0 & _).
  exists w, added, later. split; [done|]. split; [done|]. split.
  - apply Forall_forall. intros n Hn.
    eapply elem_of_sublist in Hn; [|exact Hsub0].
    apply list_elem_of_fmap in Hn as (i & -> & Hi%elem_of_seqZ). lia.
  - apply Forall_forall. intros n Hn.
    eapply elem_of_sublist in Hn; [|exact Hsub].
    apply list_elem_of_fmap in Hn as (i & -> & Hi%elem_of_seqZ). lia.
Qed.

End PayoutEvaluatorOrder.

Lemma check_winnings_column_order_witness :
  check_winnings fair_grid 3 10 symbol_values =
  check_winnings [["A"; "D"; "C"]; ["A"; "B"; "C"]; ["A"; "B"; "D"]] 3 10 symbol_values
  ∧ is_Ok (check_winnings fair_grid 3 10 symbol_values).
Proof.
  apply (check_winnings_column_order fair_grid
           [["A"; "D"; "C"]; ["A"; "B"; "C"]; ["A"; "B"; "D"]] 3 10 symbol_values).
  - apply Permutation_swap.
  - discriminate.
  - repeat constructor; simpl; lia.
  - apply fair_grid_covered.
Defined.


Lemma check_winnings_fewer_lines_witness :
  ∃ winnings winning_lines later,
    check_winnings [["A"; "B"]; ["A"; "B"]] 1 10 symbol_values = Ok (winnings, winning_lines)
    ∧ [1; 2] = winning_lines ++ later
    ∧ Forall (λ n, 1 ≤ n ≤ 1) winning_lines
    ∧ Forall (λ n, 1 < n ≤ 2) later.
Proof.
  apply (check_winnings_fewer_lines [["A"; "B"]; ["A"; "B"]] 1 2 10 symbol_values 90 [1; 2]).
  - lia.
  - by vm_compute.
Defined.

(** ** Printing the grid *)

Lemma print_row_Ok_iff {Symbol : Type} (columns : list (list Symbol)) (row : Z) :
  0 ≤ row →
  for_each (λ (_ : unit) (column : list Symbol),
              _ ← list_getitem column row; Ok ()) columns () = Ok ()
  ↔ Forall (λ c : list Symbol, is_Some (c !! Z.to_nat row)) columns.
Proof.
  intros Hrow. split; [|by apply print_row_ok].
  induction columns as [|c cs IH]; [by constructor|].
  rewrite for_each_cons, list_getitem_nonneg by done.
  destruct (c !! Z.to_nat row) as [x|] eqn:Hx; [|done].
  rewrite !bind_Ok. intros Hr%IH. by constructor.
Qed.

Lemma print_row_Raise {Symbol : Type} (columns : list (list Symbol)) (row : Z) (e : Exn) :
  for_each (λ (_ : unit) (column : list Symbol),
              _ ← list_getitem column row; Ok ()) columns () = Raise e →
  e = IndexError.
Proof.
  intros (u & c & _ & Hr)%for_each_Raise.
  destruct (list_getitem c row) as [x|e'] eqn:Hx; [done|].
  rewrite bind_Raise in Hr. injection Hr as <-. by eapply list_getitem_Raise.
Qed.

(** X10.  [print_slot_machine] goes through exactly when there is at
    least one column and no column is shorter than the first; otherwise
    it raises [IndexError].  Rows that only longer columns have are not
    read. *)
Theorem print_slot_machine_spec {Symbol : Type} (columns : list (list Symbol)) :
  (print_slot_machine columns = Ok () ↔
   columns ≠ [] ∧
   Forall (λ c : list Symbol, (length (hd [] columns) ≤ length c)%nat) columns)
  ∧ (∀ e, print_slot_machine columns = Raise e → e = IndexError).
Proof.
  unfold print_slot_machine. destruct columns as [|c0 cs].
  { split; [split; [done|by intros [? _]]|]. intros e [= <-]. done. }
  rewrite (list_getitem_Some (c0 :: cs) 0 c0), bind_Ok by done. cbn [hd].
  set (body := λ (_ : unit) (row : Z),
         for_each (λ (_ : unit) (column : list Symbol),
                     _ ← list_getitem column row; Ok ()) (c0 :: cs) ()).
  split.
  - split.
    + intros Hok. split; [done|]. apply Forall_forall. intros c Hc.
      destruct (decide (length c0 ≤ length c)%nat) as [|Hlt]; [done|].
      exfalso.
      assert (is_Raise (for_each body (range (Z.of_nat (length c0))) ())) as [e He];
        [|congruence].
      apply (for_each_Raise_iff body
               (λ row, ¬ Forall (λ c : list Symbol, is_Some (c !! Z.to_nat row)) (c0 :: cs))).
      * intros [] row Hr%elem_of_range. unfold body.
        rewrite <- print_row_Ok_iff by lia.
        destruct (for_each _ (c0 :: cs) ()) as [[]|e]; split;
          [by intros [? ?]|done|done|by eexists].
      * exists (Z.of_nat (length c)). split; [apply elem_of_range; lia|].
        rewrite Forall_forall. intros Hall. specialize (Hall c Hc).
        apply lookup_lt_is_Some in Hall. lia.
    + intros [_ Hlen].
      assert (Forall (λ row, 0 ≤ row < Z.of_nat (length c0))
                (range (Z.of_nat (length c0)))) as Hrows.
      { apply Forall_forall. intros row. by rewrite elem_of_range. }
      subst body. induction Hrows as [|row rows Hrow _ IH]; [done|].
      rewrite for_each_cons, print_row_ok, bind_Ok; [done|lia|].
      eapply Forall_impl; [exact Hlen|]. intros c Hc. simpl in Hc.
      apply lookup_lt_is_Some. lia.
  - intros e ([] & row & _ & Hr)%for_each_Raise. by eapply print_row_Raise.
Qed.

Lemma for_each_out_outcome {A : Type} (body : A → list string * Res unit) (xs : list A) :
  (for_each_out body xs).2 = for_each (λ (_ : unit) x, (body x).2) xs ().
Proof.
  induction xs as [|x xs IH]; [done|]. cbn [for_each_out]. rewrite for_each_cons.
  destruct (body x) as [out [[]|e]]; [|done].
  cbn [snd]. rewrite bind_Ok, <- IH. by destruct (for_each_out body xs).
Qed.

Lemma print_cells_outcome (columns : list (list string)) (row : Z)
    (k : nat) (l : list (list string)) :
  (for_each_out (print_cell columns row) (zip (seq k (length l)) l)).2 =
  for_each (λ (_ : unit) (column : list string),
              _ ← list_getitem column row; Ok ()) l ().
Proof.
  revert k. induction l as [|c l IH]; intros k; [done|].
  cbn [length seq zip zip_with for_each_out]. rewrite for_each_cons.
  unfold print_cell at 1.
  destruct (decide _); destruct (list_getitem c row) as [x|e]; try done;
    rewrite !bind_Ok, <- (IH (S k));
    by destruct (for_each_out _ (zip (seq (S k) (length l)) l)).
Qed.

Lemma print_cells_text (columns : list (list string)) (row : Z)
    (k : nat) (l : list (list string)) :
  0 ≤ row →
  Forall (λ c : list string, is_Some (c !! Z.to_nat row)) l →
  for_each_out (print_cell columns row) (zip (seq k (length l)) l) =
    (concat ((λ c : list string, [default EmptyString (c !! Z.to_nat row); " | "]) <$> l),
     Ok ()).
Proof.
  intros Hrow Hall. revert k.
  induction Hall as [|c l [x Hx] _ IH]; intros k; [done|].
  cbn [length seq zip zip_with for_each_out]. unfold print_cell at 1.
  rewrite (list_getitem_Some c row x) by done.
  rewrite fmap_cons, Hx. cbn [default concat].
  destruct (decide _); by rewrite (IH (S k)).
Qed.

Lemma print_row_text (columns : list (list string)) (row : nat) :
  Forall (λ c : list string, is_Some (c !! row)) columns →
  print_row columns (Z.of_nat row) = (row_text columns row, Ok ()).
Proof.
  intros Hall. unfold print_row, enumerate, row_text.
  rewrite print_cells_text; [by rewrite Nat2Z.id|lia|by rewrite Nat2Z.id].
Qed.

Lemma print_rows_text (columns : list (list string)) (rows : list nat) :
  Forall (λ row, Forall (λ c : list string, is_Some (c !! row)) columns) rows →
  for_each_out (print_row columns) (Z.of_nat <$> rows) =
    (concat (row_text columns <$> rows), Ok ()).
Proof.
  induction 1 as [|row rows Hrow _ IH]; [done|].
  rewrite !fmap_cons. cbn [for_each_out concat].
  by rewrite print_row_text, IH.
Qed.

Lemma range_of_nat (n : nat) : range (Z.of_nat n) = Z.of_nat <$> seq 0 n.
Proof.
  unfold range, seqZ. rewrite Nat2Z.id. apply list_fmap_ext.
  intros _ i _. lia.
Qed.

(** X11.  What [print_slot_machine] writes.  Its outcome is that of the
    reads alone.  On a grid with at least one column and no column
    shorter than the first, it writes the grid row by row: for each row
    of the first column, every column's symbol at that row, each one
    (the last too) followed by [" | "], and then a newline; rows that
    only longer columns have are not written. *)
Theorem print_slot_machine_text (columns : list (list string)) :
  (print_slot_machine_out columns).2 = print_slot_machine columns
  ∧ (columns ≠ [] →
     Forall (λ c : list string, (length (hd [] columns) ≤ length c)%nat) columns →
     print_slot_machine_out columns = (grid_text columns, Ok ())).
Proof.
  unfold print_slot_machine_out, print_slot_machine, grid_text. split.
  - destruct (list_getitem columns 0) as [c0|e]; [|done]. rewrite bind_Ok.
    rewrite for_each_out_outcome. apply for_each_ext.
    intros [] row _. unfold print_row, enumerate.
    rewrite <- (print_cells_outcome columns row 0).
    by destruct (for_each_out _ _) as [out [[]|e]].
  - intros Hne Hlen. destruct columns as [|c0 cs]; [done|]. cbn [hd] in *.
    rewrite (list_getitem_Some (c0 :: cs) 0 c0) by done.
    rewrite range_of_nat. apply print_rows_text.
    apply Forall_forall. intros row Hrow%elem_of_seq.
    eapply Forall_impl; [exact Hlen|]. intros c Hc. simpl in Hc.
    apply lookup_lt_is_Some. lia.
Qed.

Lemma print_slot_machine_text_witness :
  (print_slot_machine_out fair_grid).2 = print_slot_machine fair_grid
  ∧ (fair_grid ≠ [] →
     Forall (λ c : list string, (length (hd [] fair_grid) ≤ length c)%nat) fair_grid →
     print_slot_machine_out fair_grid = (grid_text fair_grid, Ok ())).
Proof. apply (print_slot_machine_text fair_grid). Defined.

Example fair_grid_text :
  grid_text fair_grid =
    ["A"; " | "; "A"; " | "; "A"; " | "; newline;
     "B"; " | "; "D"; " | "; "B"; " | "; newline;
     "C"; " | "; "C"; " | "; "D"; " | "; newline]
  ∧ print_slot_machine_out ragged_grid =
    (["A"; " | "; "B"; " | "; "A"; " | "; newline; "A"; " | "; "B"; " | "],
     Raise IndexError).
Proof. by vm_compute. Qed.

(** ** SpinGenerator, further *)

Section SpinGeneratorMore.
Context {Symbol : Type} `{EqDecision Symbol}.
Context {Rng : Type} (randbelow : nat → Rng → nat * Rng).
Implicit Types (symbols : list (Symbol * Z)) (s value : Symbol).
Implicit Types (column current pool : list Symbol) (g : Rng).

Hypothesis randbelow_lt : ∀ (n : nat) g, (0 < n)%nat → ((randbelow n g).1 < n)%nat.

Lemma list_remove_value_first value current current' :
  list_remove_value value current = Ok current' →
  ∃ l1 l2, current = l1 ++ (value :: l2) ∧ (value ∉ l1) ∧ current' = l1 ++ l2.
Proof.
  revert current'. induction current as [|y l IH]; intros l'; [done|].
  cbn [list_remove_value]. destruct (decide (y = value)) as [->|Hne].
  - intros [= <-]. exists [], l. split; [done|]. split; [|done]. apply not_elem_of_nil.
  - destruct (list_remove_value value l) as [l''|e]; [|done].
    rewrite bind_Ok. intros [= <-].
    destruct (IH l'' eq_refl) as (l1 & l2 & -> & Hnin & ->).
    exists (y :: l1), l2. split; [done|]. split; [|done].
    apply not_elem_of_cons. split; [congruence|done].
Qed.

Lemma random_choice_Raise (seq : list Symbol) g e :
  random_choice randbelow seq g = Raise e → e = IndexError.
Proof.
  unfold random_choice. destruct (decide _); [congruence|].
  destruct (randbelow _ g) as [i g1].
  destruct (list_getitem seq _) as [x|e'] eqn:Hx; [done|].
  rewrite bind_Raise. intros [= <-]. by eapply list_getitem_Raise.
Qed.

Lemma draw_symbol_Raise column current g (i : Z) e :
  draw_symbol randbelow (column, current, g) i = Raise e → e = IndexError.
Proof.
  unfold draw_symbol.
  destruct (random_choice randbelow current g) as [[value g1]|e'] eqn:Hch.
  - rewrite bind_Ok.
    destruct (list_remove_value_ok value current) as [current1 ->]; [|done].
    by eapply random_choice_elem_of.
  - rewrite bind_Raise. intros [= <-]. by eapply random_choice_Raise.
Qed.

(** X12.  One draw, with any random source: when it returns, it has
    appended one symbol of the column's pool to the column and taken the
    first copy of that symbol, and nothing else, out of the column's pool;
    when it raises, it raises [IndexError].  The [remove] never fails. *)
Theorem draw_symbol_spec column current g (i : Z) :
  (∀ column' current' g',
     draw_symbol randbelow (column, current, g) i = Ok (column', current', g') →
     ∃ value l1 l2,
       column' = column ++ [value]
       ∧ current = l1 ++ (value :: l2) ∧ (value ∉ l1)
       ∧ current' = l1 ++ l2)
  ∧ (∀ e, draw_symbol randbelow (column, current, g) i = Raise e → e = IndexError).
Proof.
  split; [|intros e; apply draw_symbol_Raise].
  intros column' current' g'. unfold draw_symbol.
  destruct (random_choice randbelow current g) as [[value g1]|e]; [|done].
  rewrite bind_Ok.
  destruct (list_remove_value value current) as [current1|e] eqn:Hrm; [|done].
  rewrite bind_Ok. intros [= <- <- <-].
  apply list_remove_value_first in Hrm as (l1 & l2 & -> & Hnin & ->).
  by exists value, l1, l2.
Qed.

Lemma draw_symbols_Raise (ls : list Z) column current g e :
  for_each (draw_symbol randbelow) ls (column, current, g) = Raise e →
  e = IndexError.
Proof.
  intros ([[c cur] g1] & i & _ & Hr)%for_each_Raise. by eapply draw_symbol_Raise.
Qed.

Lemma draw_symbols_exhaust (ls : list Z) column current g :
  (length current < length ls)%nat →
  is_Raise (for_each (draw_symbol randbelow) ls (column, current, g)).
Proof.
  revert column current g.
  induction ls as [|i ls IH]; intros column current g Hlen; [simpl in Hlen; lia|].
  rewrite for_each_cons.
  destruct (draw_symbol randbelow (column, current, g) i)
    as [[[column1 current1] g1]|e] eqn:Hd; [|by eexists].
  rewrite bind_Ok. apply IH.
  unfold draw_symbol in Hd.
  destruct (random_choice randbelow current g) as [[value g2]|e]; [|done].
  rewrite bind_Ok in Hd.
  destruct (list_remove_value value current) as [current2|e] eqn:Hrm; [|done].
  rewrite bind_Ok in Hd. injection Hd as <- <- <-.
  apply list_remove_value_perm, Permutation_length in Hrm. simpl in *. lia.
Qed.

Lemma draw_column_Raise rows pool (st : list (list Symbol) * Rng) (i : Z) e :
  draw_column randbelow rows pool st i = Raise e → e = IndexError.
Proof.
  unfold draw_column. destruct st as [columns g].
  destruct (for_each _ (range rows) _) as [[[column rest] g1]|e'] eqn:Hcol; [done|].
  rewrite bind_Raise. intros [= <-]. by eapply draw_symbols_Raise.
Qed.

(** X13.  Whatever the random source answers, the only exception a spin
    can raise is [IndexError]. *)
Theorem get_slot_machine_spin_Raise rows cols symbols g e :
  get_slot_machine_spin randbelow rows cols symbols g = Raise e → e = IndexError.
Proof.
  unfold get_slot_machine_spin.
  intros (st & i & _ & Hr)%for_each_Raise. by eapply draw_column_Raise.
Qed.

(** X14.  With a random source that answers below its bound, a spin
    raises exactly when it has a column to draw and [rows] exceeds the
    size of the pool; the check is made by no code before the draw, the
    first column's draw runs out of symbols. *)
Theorem get_slot_machine_spin_Raise_iff rows cols symbols g :
  is_Raise (get_slot_machine_spin randbelow rows cols symbols g) ↔
  0 < cols ∧ (length (build_pool symbols) < Z.to_nat rows)%nat.
Proof.
  split.
  - intros [e He].
    destruct (decide (0 < cols)) as [Hc|Hc].
    + split; [done|].
      destruct (decide (length (build_pool symbols) < Z.to_nat rows)%nat)
        as [|Hr]; [done|].
      destruct (get_slot_machine_spin_ok randbelow randbelow_lt rows cols symbols g)
        as [r Hr']; [lia|congruence].
    + unfold get_slot_machine_spin, range in He. by rewrite seqZ_nil in He by lia.
  - intros [Hc Hr]. unfold get_slot_machine_spin, range.
    rewrite seqZ_cons, for_each_cons by lia. unfold draw_column at 2.
    destruct (draw_symbols_exhaust (seqZ 0 rows) [] (build_pool symbols) g) as [e He].
    { by rewrite length_seqZ. }
    unfold range. rewrite He. by eexists.
Qed.

Lemma for_each_const_body {A S : Type} (body : S → A → Res S) (xs ys : list A) (st : S) :
  (∀ (st' : S) (x y : A), body st' x = body st' y) → length xs = length ys →
  for_each body xs st = for_each body ys st.
Proof.
  intros Hbody. revert ys st. induction xs as [|x xs IH]; intros [|y ys] st Hlen;
    try done.
  rewrite !for_each_cons, (Hbody st x y). destruct (body st y); [|done].
  rewrite !bind_Ok. apply IH. by injection Hlen.
Qed.

Lemma draw_columns_from rows pool (ls : list Z) (columns : list (list Symbol)) g :
  for_each (draw_column randbelow rows pool) ls (columns, g) =
  '(new, g') ← for_each (draw_column randbelow rows pool) ls ([], g);
  Ok (columns ++ new, g').
Proof.
  revert columns g. induction ls as [|i ls IH]; intros columns g.
  { simpl. by rewrite app_nil_r. }
  rewrite !for_each_cons. unfold draw_column at 2 4.
  destruct (for_each _ (range rows) _) as [[[column rest] g1]|e]; [|done].
  rewrite !bind_Ok, (IH (columns ++ [column])), (IH ([] ++ [column])).
  destruct (for_each _ ls ([], g1)) as [[new g2]|e]; [|done].
  rewrite !bind_Ok. by rewrite <- !app_assoc.
Qed.

(** X15.  Columns are drawn one after the other, each from the whole
    pool: a spin of [cols1 + cols2] columns is a spin of [cols1] columns
    followed by a spin of [cols2] columns that starts from the generator
    the first one left, the two grids side by side. *)
Theorem get_slot_machine_spin_columns rows cols1 cols2 symbols g :
  0 ≤ cols1 → 0 ≤ cols2 →
  get_slot_machine_spin randbelow rows (cols1 + cols2) symbols g =
  '(grid1, g1) ← get_slot_machine_spin randbelow rows cols1 symbols g;
  '(grid2, g2) ← get_slot_machine_spin randbelow rows cols2 symbols g1;
  Ok (grid1 ++ grid2, g2).
Proof.
  intros H1 H2. unfold get_slot_machine_spin, range.
  rewrite seqZ_app, for_each_app by lia.
  destruct (for_each _ (seqZ 0 cols1) _) as [[grid1 g1]|e]; [|done].
  rewrite !bind_Ok, draw_columns_from.
  rewrite (for_each_const_body _ (seqZ (0 + cols1) cols2) (seqZ 0 cols2));
    [done|by intros [] | by rewrite !length_seqZ].
Qed.

End SpinGeneratorMore.

(** X16.  The pool lists the symbols in the order of the table, each in
    one run as long as its weight (empty for a weight of zero or less);
    so the pool of two tables end to end is the two pools end to end. *)
Theorem build_pool_order {Symbol : Type} (symbol : Symbol) (weight : Z)
    (symbols symbols' : list (Symbol * Z)) :
  build_pool ((symbol, weight) :: symbols) =
    replicate (Z.to_nat weight) symbol ++ build_pool symbols
  ∧ build_pool (symbols ++ symbols') = build_pool symbols ++ build_pool symbols'.
Proof.
  rewrite !build_pool_pool_of. split; [done|].
  unfold pool_of. by rewrite fmap_app, concat_app.
Qed.

Lemma get_slot_machine_spin_Raise_witness :
  get_slot_machine_spin lcg_randbelow 3 3 small_table 42%N = Raise IndexError
  ∧ IndexError = IndexError.
Proof.
  assert (get_slot_machine_spin lcg_randbelow 3 3 small_table 42%N = Raise IndexError)
    as Hr by (by vm_compute).
  split; [exact Hr|].
  apply (get_slot_machine_spin_Raise lcg_randbelow 3 3 small_table 42%N IndexError Hr).
Defined.

Lemma get_slot_machine_spin_Raise_iff_witness :
  is_Raise (get_slot_machine_spin lcg_randbelow 3 3 small_table 42%N) ↔
  0 < 3 ∧ (length (build_pool small_table) < Z.to_nat 3)%nat.
Proof.
  apply (get_slot_machine_spin_Raise_iff lcg_randbelow lcg_randbelow_lt
           3 3 small_table 42%N).
Defined.

Lemma get_slot_machine_spin_columns_witness :
  get_slot_machine_spin lcg_randbelow 3 (2 + 1) symbol_count 42%N =
  '(grid1, g1) ← get_slot_machine_spin lcg_randbelow 3 2 symbol_count 42%N;
  '(grid2, g2) ← get_slot_machine_spin lcg_randbelow 3 1 symbol_count g1;
  Ok (grid1 ++ grid2, g2).
Proof.
  apply (get_slot_machine_spin_columns lcg_randbelow 3 2 1 symbol_count 42%N); lia.
Defined.

(** ** RoundController and BankrollSession, further *)

Lemma bet_loop_read_entry (gas : nat) (balance lines : Z) (stdin : list string) :
  (length stdin < gas)%nat →
  bet_loop gas balance lines stdin =
  '(bet, rest) ← read_entry (affordable_ok balance lines) stdin;
  Ok (bet, bet * lines, rest).
Proof.
  revert gas. induction stdin as [|line stdin IH]; intros gas Hgas.
  { destruct gas; [simpl in Hgas; lia|done]. }
  destruct gas as [|gas]; [lia|]. cbn [length] in Hgas.
  assert (bet_loop (S gas) balance lines stdin =
          '(bet, rest) ← read_entry (affordable_ok balance lines) stdin;
          Ok (bet, bet * lines, rest)) as Hskip by (apply IH; lia).
  cbn [bet_loop bet_amount read_entry] in *.
  destruct (isdigit line); [|exact Hskip].
  destruct (int line) as [n|e]; [|done].
  unfold affordable_ok at 1. fold (bet_ok n).
  destruct (bet_ok n); [|exact Hskip]. rewrite bind_Ok. cbn [andb].
  destruct (balance <? n * lines); cbn [negb]; [|done].
  apply IH. lia.
Qed.



Lemma check_winnings_upper `{Countable Symbol} (columns : list (list Symbol))
    (lines bet hi : Z) (values : gmap Symbol Z) (winnings : Z) (winning_lines : list Z) :
  (∀ s v, values !! s = Some v → 0 ≤ v ≤ hi) →
  0 ≤ hi → 0 ≤ bet → 0 ≤ lines →
  check_winnings columns lines bet values = Ok (winnings, winning_lines) →
  winnings ≤ hi * bet * lines.
Proof.
  intros Hval Hhi Hbet Hlines
    (added & paid & _ & Hsub & Hlen & Hpaid & ->)%check_lines_added.
  apply sublist_length in Hsub. unfold range in Hsub.
  rewrite length_fmap, length_seqZ in Hsub.
  assert (Forall (λ v, 0 ≤ v ≤ hi) paid) as Hb.
  { eapply Forall_impl; [exact Hpaid|]. intros v [s Hs]. by eapply Hval. }
  pose proof (sumZ_bounds 0 hi bet paid Hbet Hb) as [_ Hup].
  assert (Z.of_nat (length paid) ≤ lines) by lia. nia.
Qed.

Lemma read_entry_suffix (ok : Z → bool) (stdin rest : list string) (n : Z) :
  read_entry ok stdin = Ok (n, rest) →
  ∃ consumed, stdin = consumed ++ rest ∧ (1 ≤ length consumed)%nat.
Proof.
  intros (skipped & line & -> & _)%read_entry_Ok_iff.
  exists (skipped ++ [line]). rewrite <- app_assoc. split; [done|].
  rewrite length_app. simpl. lia.
Qed.

Section RoundMore.
Context {Rng : Type} (randbelow : nat → Rng → nat * Rng).
Implicit Types (balance lines bet delta : Z) (stdin rest : list string) (g : Rng).
Implicit Types (st : Session (Rng := Rng)).

Hypothesis randbelow_lt : ∀ (n : nat) g, (0 < n)%nat → ((randbelow n g).1 < n)%nat.

Lemma game_needs_balance balance stdin g delta rest g' :
  game randbelow balance stdin g = Ok (delta, rest, g') → 1 ≤ balance.
Proof.
  intros (lines & bet & stdin1 & slots & w & wl & Hl & Hb & _)%game_inv.
  apply get_number_of_lines_inv in Hl as [Hl _].
  apply bet_loop_inv in Hb as (_ & Hle & Hbet & _).
  unfold MIN_BET in Hbet. nia.
Qed.

(** X18.  With a balance below 1 no round can be played: [game] does not
    return, whatever is typed (every bet is turned down until the input
    ends), and the session loop completes no further iteration, so the
    session stays as it is. *)
Theorem broke_session st :
  balance st < 1 →
  (∀ stdin g, is_Raise (game randbelow (balance st) stdin g))
  ∧ (∀ st', rtc (session_step randbelow) st st' → st' = st).
Proof.
  intros Hb. split.
  - intros stdin g.
    destruct (game randbelow (balance st) stdin g) as [[[delta rest] g']|e] eqn:Hg;
      [|by eexists].
    apply game_needs_balance in Hg. lia.
  - intros st' Hrun. destruct Hrun as [|st1 st2 st3 Hstep _]; [done|].
    unfold session_step, main_iter in Hstep.
    destruct (input (stdin st1)) as [[answer stdin1]|e]; [|done].
    rewrite bind_Ok in Hstep. destruct (decide _); [done|].
    destruct (game randbelow (balance st1) stdin1 (rng st1))
      as [[[delta rest] g']|e] eqn:Hg; [|done].
    apply game_needs_balance in Hg. lia.
Qed.

Lemma bet_loop_Raise (gas : nat) balance lines stdin e :
  bet_loop gas balance lines stdin = Raise e → e = EOFError ∨ e = ValueError.
Proof.
  revert stdin. induction gas as [|gas IH]; intros stdin.
  { intros [= <-]. by left. }
  cbn [bet_loop]. destruct (bet_amount stdin) as [[b stdin1]|e'] eqn:Hb.
  - rewrite bind_Ok. destruct (balance <? b * lines); [apply IH|done].
  - rewrite bind_Raise. intros [= <-].
    rewrite bet_amount_read_entry in Hb. by eapply read_entry_Raise.
Qed.

Lemma game_Raise_kinds balance stdin g e :
  game randbelow balance stdin g = Raise e → e = EOFError ∨ e = ValueError.
Proof.
  intros Hg.
  destruct (get_number_of_lines stdin) as [[lines stdin1]|e1] eqn:Hl.
  - destruct (bet_loop (S (length stdin1)) balance lines stdin1)
      as [[[bet total_bet] stdin2]|e2] eqn:Hb.
    + destruct (game_accepted randbelow randbelow_lt balance stdin g
                  lines stdin1 bet total_bet stdin2 Hl Hb)
        as (slots & g' & w & wl & _ & _ & _ & _ & Hok).
      congruence.
    + unfold game in Hg. rewrite Hl, bind_Ok, Hb, bind_Raise in Hg.
      injection Hg as <-. by eapply bet_loop_Raise.
  - unfold game in Hg. rewrite Hl, bind_Raise in Hg. injection Hg as <-.
    rewrite get_number_of_lines_read_entry in Hl. by eapply read_entry_Raise.
Qed.

Lemma main_loop_Raise_kinds (gas : nat) st e :
  main_loop randbelow gas st = Raise e → e = EOFError ∨ e = ValueError.
Proof.
  revert st. induction gas as [|gas IH]; intros st.
  { intros [= <-]. by left. }
  cbn [main_loop]. unfold main_iter.
  destruct (input (stdin st)) as [[answer stdin1]|e1] eqn:Hin.
  - rewrite bind_Ok. destruct (decide _); [done|].
    destruct (game randbelow (balance st) stdin1 (rng st))
      as [[[delta stdin2] g']|e2] eqn:Hg.
    + rewrite !bind_Ok. apply IH.
    + rewrite !bind_Raise. intros [= <-]. by eapply game_Raise_kinds.
  - rewrite !bind_Raise. intros [= <-]. left.
    destruct (stdin st); [by injection Hin as <-|done].
Qed.

(** X19.  With a random source that answers below its bound, the only
    exceptions [game] and [main] can raise come from the console: the
    input ran out ([EOFError]) or a line of digits was refused by [int]
    ([ValueError]).  The spin, the printing and the evaluation of the
    configured 3 by 3 grid never raise. *)
Theorem game_main_Raise stdin g e :
  (∀ balance, game randbelow balance stdin g = Raise e →
     e = EOFError ∨ e = ValueError)
  ∧ (main randbelow stdin g = Raise e → e = EOFError ∨ e = ValueError).
Proof.
  split; [intros balance; apply game_Raise_kinds|].
  unfold main. destruct (deposit stdin) as [[deposited stdin1]|e1] eqn:Hd.
  - rewrite bind_Ok. apply main_loop_Raise_kinds.
  - rewrite bind_Raise. intros [= <-].
    rewrite deposit_read_entry in Hd. by eapply read_entry_Raise.
Qed.

(** X20.  The net change of a round that returns is at least -300 and at
    most 1200, and at most four times the balance: no round more than
    quintuples the balance. *)
Theorem game_delta_range balance stdin g delta rest g' :
  game randbelow balance stdin g = Ok (delta, rest, g') →
  -300 ≤ delta ≤ 1200 ∧ delta ≤ 4 * balance ∧ balance + delta ≤ 5 * balance.
Proof.
  intros (lines & bet & stdin1 & slots & w & wl & Hl & Hb & _ & Hcw & ->)%game_inv.
  apply get_number_of_lines_inv in Hl as [Hl _].
  apply bet_loop_inv in Hb as (_ & Hle & Hbet & _).
  unfold MIN_BET, MAX_BET in Hbet. unfold MAX_LINES in Hl.
  assert (0 ≤ w) as Hlo.
  { eapply check_winnings_nonneg; [|by instantiate (1 := bet); lia|exact Hcw].
    intros s v Hv%symbol_values_lookup. lia. }
  assert (w ≤ 5 * bet * lines) as Hw.
  { eapply check_winnings_upper; [|lia|lia|lia|exact Hcw].
    intros s v Hv%symbol_values_lookup. lia. }
  nia.
Qed.

Lemma game_consumes stdin balance g delta rest g' :
  game randbelow balance stdin g = Ok (delta, rest, g') →
  ∃ consumed, stdin = consumed ++ rest ∧ (2 ≤ length consumed)%nat.
Proof.
  intros (lines & bet & stdin1 & slots & w & wl & Hl & Hb & _)%game_inv.
  rewrite get_number_of_lines_read_entry in Hl.
  apply read_entry_suffix in Hl as (c1 & -> & Hc1).
  rewrite bet_loop_read_entry in Hb by lia.
  destruct (read_entry _ stdin1) as [[b r]|e] eqn:Hr; [|done].
  rewrite bind_Ok in Hb. injection Hb as _ _ ->.
  apply read_entry_suffix in Hr as (c2 & -> & Hc2).
  exists (c1 ++ c2). rewrite <- app_assoc. split; [done|].
  rewrite length_app. lia.
Qed.

Lemma session_step_consumes st st' :
  session_step randbelow st st' →
  ∃ consumed, stdin st = consumed ++ stdin st' ∧ (3 ≤ length consumed)%nat.
Proof.
  unfold session_step, main_iter.
  destruct (stdin st) as [|answer stdin1]; [done|]. cbn [input].
  rewrite bind_Ok. destruct (decide _); [done|].
  destruct (game randbelow (balance st) stdin1 (rng st))
    as [[[delta stdin2] g']|e] eqn:Hg; [|done].
  rewrite bind_Ok. intros [= <-]. cbn [stdin].
  apply game_consumes in Hg as (consumed & -> & Hlen).
  exists (answer :: consumed). split; [done|]. simpl. lia.
Qed.

Lemma session_run_suffix st st' :
  rtc (session_step randbelow) st st' → stdin st' `suffix_of` stdin st.
Proof.
  induction 1 as [st|st1 st2 st3 Hstep _ IH]; [done|].
  apply session_step_consumes in Hstep as (consumed & -> & _).
  by apply suffix_app_r.
Qed.

(** X21.  A round that returns has read at least two lines, and a
    completed iteration of the session loop at least three: the input
    left is the input given less a prefix of that many lines or more. *)
Theorem round_reads :
  (∀ stdin balance g delta rest g',
     game randbelow balance stdin g = Ok (delta, rest, g') →
     ∃ consumed, stdin = consumed ++ rest ∧ (2 ≤ length consumed)%nat)
  ∧ (∀ st st',
       session_step randbelow st st' →
       ∃ consumed, stdin st = consumed ++ stdin st' ∧ (3 ≤ length consumed)%nat).
Proof.
  split.
  - intros stdin balance g delta rest g'. apply game_consumes.
  - apply session_step_consumes.
Qed.

(** X22.  [main] returns only after a line [q] was typed, and the
    balance it returns is not negative; typed right after the deposit,
    [q] makes it return the deposit. *)
Theorem main_quit (typed : list string) g :
  (∀ final, main randbelow typed g = Ok final → "q" ∈ typed ∧ 0 ≤ final)
  ∧ (∀ amount rest,
       deposit typed = Ok (amount, "q" :: rest) → main randbelow typed g = Ok amount).
Proof.
  clear randbelow_lt.
  split.
  - intros final Hmain. split; [|by eapply main_final_balance].
    unfold main in Hmain.
    destruct (deposit typed) as [[deposited stdin1]|e] eqn:Hd; [|done].
    rewrite bind_Ok in Hmain.
    apply main_loop_run in Hmain as (st' & Hrun & Hq & _).
    apply session_run_suffix in Hrun as [consumed Hrun]. cbn [stdin] in Hrun.
    rewrite deposit_read_entry in Hd.
    apply read_entry_suffix in Hd as (c0 & -> & _).
    unfold main_iter in Hq.
    destruct (stdin st') as [|answer stdin2] eqn:Hst; [done|].
    cbn [input] in Hq. rewrite bind_Ok in Hq.
    destruct (decide (answer = "q")) as [->|Hne].
    + rewrite Hrun. set_solver.
    + by destruct (game _ _ _ _) as [[[? ?] ?]|].
  - intros amount rest Hd. unfold main. rewrite Hd, bind_Ok.
    cbn [length main_loop]. unfold main_iter. cbn [stdin input].
    rewrite bind_Ok. by rewrite decide_True.
Qed.

End RoundMore.

(** ** The further properties at concrete inputs *)




Lemma check_winnings_bet_scale_witness :
  check_winnings fair_grid 3 10 symbol_values =
  '(winnings, winning_lines) ← check_winnings fair_grid 3 1 symbol_values;
  Ok (10 * winnings, winning_lines).
Proof. apply (check_winnings_bet_scale fair_grid 3 10 symbol_values). Defined.

Lemma print_slot_machine_spec_witness :
  (print_slot_machine ragged_grid = Ok () ↔
   ragged_grid ≠ [] ∧
   Forall (λ c : list string, (length (hd [] ragged_grid) ≤ length c)%nat) ragged_grid)
  ∧ (∀ e, print_slot_machine ragged_grid = Raise e → e = IndexError).
Proof. apply (print_slot_machine_spec ragged_grid). Defined.

Lemma draw_symbol_spec_witness :
  ∃ value l1 l2,
    ["D"; "A"] = ["D"] ++ [value]
    ∧ ["B"; "A"; "C"; "A"] = l1 ++ (value :: l2) ∧ (value ∉ l1)
    ∧ ["B"; "C"; "A"] = l1 ++ l2.
Proof.
  destruct (draw_symbol_spec lcg_randbelow ["D"] ["B"; "A"; "C"; "A"] 3%N 0) as [Hok _].
  apply (Hok ["D"; "A"] ["B"; "C"; "A"] 1163074432%N). by vm_compute.
Defined.

Lemma build_pool_order_witness :
  build_pool (("A", 2) :: [("B", 1)]) = replicate (Z.to_nat 2) "A" ++ build_pool [("B", 1)]
  ∧ build_pool ([("B", 1)] ++ [("C", -4); ("D", 2)]) =
    build_pool [("B", 1)] ++ build_pool [("C", -4); ("D", 2)].
Proof. apply (build_pool_order "A" 2 [("B", 1)] [("C", -4); ("D", 2)]). Defined.

Lemma broke_session_witness :
  (∀ stdin g, is_Raise (game lcg_randbelow 0 stdin g))
  ∧ (∀ st', rtc (session_step lcg_randbelow) (mkSession 0 [enter; "1"; "1"] 42%N) st' →
            st' = mkSession 0 [enter; "1"; "1"] 42%N).
Proof.
  apply (broke_session lcg_randbelow (mkSession 0 [enter; "1"; "1"] 42%N)).
  simpl. lia.
Defined.

Lemma game_main_Raise_witness :
  (∀ balance, game lcg_randbelow balance ["3"] 42%N = Raise EOFError →
     EOFError = EOFError ∨ EOFError = ValueError)
  ∧ (main lcg_randbelow ["3"] 42%N = Raise EOFError →
     EOFError = EOFError ∨ EOFError = ValueError)
  ∧ main lcg_randbelow ["3"] 42%N = Raise EOFError.
Proof.
  destruct (game_main_Raise lcg_randbelow lcg_randbelow_lt ["3"] 42%N EOFError)
    as [Hg Hm].
  split; [exact Hg|]. split; [exact Hm|]. by vm_compute.
Defined.

Lemma game_delta_range_witness :
  game lcg_randbelow 50 ["3"; "10"] 42%N = Ok (-30, [], 1314989459%N)
  ∧ -300 ≤ -30 ≤ 1200 ∧ -30 ≤ 4 * 50 ∧ 50 + -30 ≤ 5 * 50.
Proof.
  assert (game lcg_randbelow 50 ["3"; "10"] 42%N = Ok (-30, [], 1314989459%N))
    as Hg by (by vm_compute).
  split; [exact Hg|].
  apply (game_delta_range lcg_randbelow 50 ["3"; "10"] 42%N (-30) [] 1314989459%N Hg).
Defined.

Lemma round_reads_witness :
  ∃ consumed, ["abc"; "3"; "10"; "q"] = consumed ++ ["q"] ∧ (2 ≤ length consumed)%nat.
Proof.
  destruct (round_reads lcg_randbelow) as [Hg _].
  apply (Hg ["abc"; "3"; "10"; "q"] 50 42%N (-30) ["q"] 1314989459%N).
  by vm_compute.
Defined.

Lemma main_quit_witness :
  main lcg_randbelow ["0"; "100"; "q"; "1"] 42%N = Ok 100
  ∧ "q" ∈ ["100"; enter; "3"; "10"; "q"] ∧ 0 ≤ 70.
Proof.
  destruct (main_quit lcg_randbelow ["0"; "100"; "q"; "1"] 42%N) as [_ Hq].
  destruct (main_quit lcg_randbelow ["100"; enter; "3"; "10"; "q"] 42%N) as [Hm _].
  split.
  - apply (Hq 100 ["1"]). by vm_compute.
  - apply (Hm 70). by vm_compute.
Defined.
